(** * Gamelist reader and writer (XMLReader.cpp)

    A shallow embedding of [removeCommonPath], [findOrCreateFile],
    [parseGamelist], [addFileDataNode] and [updateGamelist], and the
    properties of the catalog they maintain.

    Conventions of the embedding:
    - a [boost::filesystem::path] is the sequence of elements its iterator
      yields; [operator==] on paths compares exactly these elements;
    - the disk is an explicit argument ([disk]); a call that throws
      [filesystem_error] or follows an invalid pointer yields [None];
    - [FileData] objects live in a store indexed by pointers, so that two
      calls returning the same entry return the same pointer;
    - an XML node is its name, its text and its ordered children;
    - log output is not part of the state. *)

From Stdlib Require Import Ascii String.
From stdpp Require Import gmap strings list fin_maps.

Local Open Scope string_scope.
Local Open Scope list_scope.
Local Set Warnings "-register-all".

(** ** boost::filesystem paths *)

Module fs.

(** The elements of a path in iteration order: ["/"] for the root directory,
    then the names; a trailing separator iterates as ["."]. *)
Definition path := list string.

Definition dot : string := ".".
Definition dot_dot : string := "..".
Definition separator : string := "/".

Fixpoint split_on (sep : ascii) (s : list ascii) : list (list ascii) :=
  match s with
  | [] => [[]]
  | a :: s' =>
      if decide (a = sep) then [] :: split_on sep s'
      else match split_on sep s' with
           | seg :: segs => (a :: seg) :: segs
           | [] => [[a]]
           end
  end.

Definition nonempty_segment (seg : list ascii) : bool :=
  match seg with [] => false | _ => true end.

(** The [fs::path] built from a POSIX pathname, as the element sequence. *)
Definition path_of_string (s : string) : path :=
  let segs := split_on "/"%char (list_ascii_of_string s) in
  let names := List.filter nonempty_segment segs in
  let rooted := match segs with [] :: _ :: _ => true | _ => false end in
  let trailing :=
    match last segs, names with
    | Some [], _ :: _ => true
    | _, _ => false
    end in
  (if rooted then [separator] else [])
    ++ (string_of_list_ascii <$> names)
    ++ (if trailing then [dot] else []).

(** [path::generic_string()]: the elements joined by slashes. *)
Definition generic_string (p : path) : string :=
  match p with
  | e :: rest =>
      if decide (e = separator) then separator +:+ String.concat separator rest
      else String.concat separator p
  | [] => EmptyString
  end.

(** [path::root_path()]; the root name is empty on POSIX. *)
Definition root_path (p : path) : path :=
  match p with
  | e :: _ => if decide (e = separator) then [e] else []
  | [] => []
  end.

Definition is_absolute (p : path) : bool :=
  match p with
  | e :: _ => bool_decide (e = separator)
  | [] => false
  end.

(** [path::filename()]: the last element, as a path. *)
Definition filename (p : path) : path :=
  match last p with
  | Some e => [e]
  | None => []
  end.

Fixpoint before_last_dot (name : list ascii) : option (list ascii) :=
  match name with
  | [] => None
  | a :: name' =>
      match before_last_dot name' with
      | Some pre => Some (a :: pre)
      | None => if decide (a = "."%char) then Some [] else None
      end
  end.

Definition stem_of_name (name : string) : string :=
  if decide (name = dot) then name
  else if decide (name = dot_dot) then name
  else match before_last_dot (list_ascii_of_string name) with
       | Some pre => string_of_list_ascii pre
       | None => name
       end.

(** [path::stem()]: the filename without its extension. *)
Definition stem (p : path) : path :=
  match last p with
  | Some e => let s := stem_of_name e in if decide (s = EmptyString) then [] else [s]
  | None => []
  end.

(** [operator/] with a right operand that does not start with a separator
    (the only use in this file: single names are appended). *)
Definition append (p q : path) : path := p ++ q.

(** What the program observes of the disk: [canonical] ([None] when it
    throws because the path cannot be resolved) and the identity of the
    file a path names (device and inode as [stat] reports them; [None]
    when there is no such file). *)
Record disk := Disk {
  canonical : path → option path;
  file_id : path → option N;
}.

Definition exists_ (d : disk) (p : path) : bool :=
  bool_decide (is_Some (file_id d p)).

(** [fs::equivalent]: both paths name the same file. *)
Definition equivalent (d : disk) (p q : path) : bool :=
  bool_decide (file_id d p = file_id d q).

End fs.

Infix "//" := fs.append (at level 40, left associativity).

(** ** removeCommonPath *)

(** Iterators over the elements of a path are the remaining range; the end
    iterator is the empty range. Dereferencing the end iterator is outside
    what the iterator allows; [deref_or] reads [past_end] there, and [deref]
    takes the empty element boost keeps in an end iterator. *)
Definition iterator := list string.

Definition deref_or (past_end : string) (it : iterator) : string :=
  hd past_end it.

Definition deref : iterator → string := deref_or EmptyString.

Definition at_end (it : iterator) : bool :=
  match it with [] => true | _ => false end.

(** The loop condition of the divergence search, in the order the source
    evaluates it: both iterators are dereferenced first, the end tests
    follow. *)
Definition divergence_cond (itr_path itr_relative_to : iterator) : bool :=
  bool_decide (deref itr_path = deref itr_relative_to)
  && negb (at_end itr_path) && negb (at_end itr_relative_to).

Record divergence := Divergence {
  div_path : iterator;
  div_relative_to : iterator;
  (** every iterator the loop condition dereferenced, in order *)
  div_derefs : list iterator;
}.

Fixpoint find_divergence (itr_path itr_relative_to : iterator)
    (derefs : list iterator) {struct itr_path} : divergence :=
  let derefs := derefs ++ [itr_path; itr_relative_to] in
  if divergence_cond itr_path itr_relative_to then
    match itr_path, itr_relative_to with
    | _ :: itr_path', _ :: itr_relative_to' =>
        find_divergence itr_path' itr_relative_to' derefs
    | _, _ => Divergence itr_path itr_relative_to derefs
    end
  else Divergence itr_path itr_relative_to derefs.

(** The second loop: the remaining elements of [p], skipping ["."]. *)
Fixpoint collect_rest (result : fs.path) (itr_path : iterator) : fs.path :=
  match itr_path with
  | [] => result
  | e :: itr_path' =>
      collect_rest (if decide (e ≠ fs.dot) then result // [e] else result)
                   itr_path'
  end.

(** Returns the path and the [contains] flag. *)
Definition removeCommonPath (d : fs.disk) (path relativeTo : fs.path)
    : option (fs.path * bool) :=
  p ← fs.canonical d path;
  r ← fs.canonical d relativeTo;
  if decide (fs.root_path p ≠ fs.root_path r) then Some (p, false)
  else
    let dv := find_divergence p r [] in
    if negb (at_end (div_relative_to dv)) then Some (p, false)
    else Some (collect_rest [] (div_path dv), true).

(** The iterators [removeCommonPath] dereferences while it searches for
    the point of divergence. *)
Definition removeCommonPath_derefs (d : fs.disk) (path relativeTo : fs.path)
    : option (list iterator) :=
  p ← fs.canonical d path;
  r ← fs.canonical d relativeTo;
  if decide (fs.root_path p ≠ fs.root_path r) then Some []
  else Some (div_derefs (find_divergence p r [])).

(** ** Collaborators: XML nodes and metadata *)

(** A pugixml node: its name, its text and its children in document
    order. The null node of pugixml is [None]. *)
Inductive xml_node :=
  XNode (name : string) (text : string) (children : list xml_node).

Definition node_name (n : xml_node) : string :=
  match n with XNode name _ _ => name end.

Definition node_text (n : xml_node) : string :=
  match n with XNode _ text _ => text end.

Definition node_children (n : xml_node) : list xml_node :=
  match n with XNode _ _ children => children end.

Definition named (tag : string) (n : xml_node) : bool :=
  bool_decide (node_name n = tag).

(** [xml_node::child(name)]: the first child with that name. *)
Definition child_of (children : list xml_node) (tag : string)
    : option xml_node :=
  List.find (named tag) children.

Definition child (n : xml_node) (tag : string) : option xml_node :=
  child_of (node_children n) tag.

(** [node.text().get()]; the null node has the empty text. *)
Definition text_get (n : option xml_node) : string :=
  from_option node_text EmptyString n.

(** Modelled from the spec: [MetaDataList] (its definition is not among the
    sources) is a mapping from string keys to string values read with
    [get] and written with [set]; a key without a value reads as the empty
    string. *)
Abbreviation MetaDataList := (gmap string string).

Definition md_get (m : MetaDataList) (key : string) : string :=
  default EmptyString (m !! key).

Definition md_set (m : MetaDataList) (key value : string) : MetaDataList :=
  <[key := value]> m.

(** The metadata model this file consumes and does not define:
    [createFromXML] parses the metadata of an element, [appendToXML] gives
    the children that [appendToXML(node, true)] appends to a node (the
    values that differ from their defaults, in the declared order), and
    [getCleanFileName] is the default name of a path. *)
Class MetaDataModel := {
  createFromXML : xml_node → MetaDataList;
  appendToXML : MetaDataList → list xml_node;
  getCleanFileName : fs.path → string;
}.

(** ** The catalog tree *)

Inductive FileType := GAME | FOLDER.

#[global] Instance FileType_eq_dec : EqDecision FileType.
Proof. solve_decision. Defined.

(** [FileData*]: an address in the store. *)
Abbreviation ptr := nat (only parsing).

Record FileData := mkFileData {
  getType : FileType;
  getPath : fs.path;
  metadata : MetaDataList;
  getChildren : list ptr;
  getParent : option ptr;
}.

Abbreviation store := (gmap nat FileData) (only parsing).

Definition set_children (fd : FileData) (children : list ptr) : FileData :=
  mkFileData (getType fd) (getPath fd) (metadata fd) children (getParent fd).

Definition set_parent (fd : FileData) (parent : option ptr) : FileData :=
  mkFileData (getType fd) (getPath fd) (metadata fd) (getChildren fd) parent.

Definition set_metadata (fd : FileData) (md : MetaDataList) : FileData :=
  mkFileData (getType fd) (getPath fd) md (getChildren fd) (getParent fd).

(** Modelled from the spec: the [FileData] constructor (FileData.cpp is not
    among the sources) makes an entry of the given kind and path, without
    children or parent, whose name is the default derived from the path.
    It is allocated at an address not in use. *)
Definition new_FileData `{MetaDataModel} (h : store) (type : FileType)
    (path : fs.path) : store * ptr :=
  let file := fresh (dom h) in
  (<[file := mkFileData type path (md_set ∅ "name" (getCleanFileName path))
                        [] None]> h,
   file).

(** Modelled from the spec: [FileData::addChild] appends the child to the
    ordered children of the parent and sets the back-reference of the
    child. *)
Definition addChild (h : store) (parent file : ptr) : option store :=
  pfd ← h !! parent;
  let h := <[parent := set_children pfd (getChildren pfd ++ [file])]> h in
  cfd ← h !! file;
  Some (<[file := set_parent cfd (Some parent)]> h).

(** Modelled from the spec: [FileData::getFilesRecursive(GAME | FOLDER)]
    lists every entry below a node in pre-order, games and folders as
    they come. The recursion is bounded by [fuel]. *)
Fixpoint getFilesRecursive (fuel : nat) (h : store) (node : ptr) : list ptr :=
  match fuel with
  | 0 => []
  | S fuel =>
      match h !! node with
      | Some fd =>
          flat_map (λ c, c :: getFilesRecursive fuel h c) (getChildren fd)
      | None => []
      end
  end.

Record SystemData := mkSystemData {
  getRootFolder : option ptr;
}.

(** ** findOrCreateFile *)

(** The inner [for] loop: the first child whose path's filename equals the
    current element of the relative path. *)
Fixpoint find_child (h : store) (name : string) (children : list ptr)
    : option (option ptr) :=
  match children with
  | [] => Some None
  | child_it :: rest =>
      fd ← h !! child_it;
      if decide (fs.filename (getPath fd) = [name]) then Some (Some child_it)
      else find_child h name rest
  end.

(** The [while] loop over the elements of [relative]. *)
Fixpoint descend `{MetaDataModel} (type : FileType) (path : fs.path)
    (h : store) (treeNode : ptr) (path_it : iterator)
    : option (store * option ptr) :=
  match path_it with
  | [] => Some (h, None)
  | name :: rest =>
      node ← h !! treeNode;
      found ← find_child h name (getChildren node);
      if at_end rest then
        match found with
        | Some child => Some (h, Some child)
        | None =>
            if decide (type = FOLDER) then Some (h, None)
            else
              let '(h, file) := new_FileData h type path in
              h ← addChild h treeNode file;
              Some (h, Some file)
        end
      else
        match found with
        | Some child => descend type path h child rest
        | None =>
            if decide (type = FOLDER) then Some (h, None)
            else
              let '(h, folder) :=
                new_FileData h FOLDER (fs.stem (getPath node) // [name]) in
              h ← addChild h treeNode folder;
              descend type path h folder rest
        end
  end.

Definition findOrCreateFile `{MetaDataModel} (d : fs.disk) (h : store)
    (system : SystemData) (path : fs.path) (type : FileType)
    : option (store * option ptr) :=
  root ← getRootFolder system;
  rootfd ← h !! root;
  '(relative, contains) ← removeCommonPath d path (getPath rootfd);
  if negb contains then Some (h, None)
  else descend type path h root relative.

(** ** parseGamelist *)

(** The gamelist file as the reader finds it. *)
Inductive xml_file :=
  | NoFile
  | Malformed
  | Document (doc : list xml_node).

(** The body of the inner loop, for one [game] or [folder] element. *)
Definition load_file_node `{MetaDataModel} (d : fs.disk)
    (system : SystemData) (type : FileType) (h : store)
    (fileNode : xml_node) : option store :=
  let path := fs.path_of_string (text_get (child fileNode "path")) in
  if negb (fs.exists_ d path) then Some h
  else
    '(h, file) ← findOrCreateFile d h system path type;
    match file with
    | None => Some h
    | Some file =>
        fd ← h !! file;
        let defaultName := md_get (metadata fd) "name" in
        let md := createFromXML fileNode in
        let md :=
          if decide (md_get md "name" = EmptyString)
          then md_set md "name" defaultName else md in
        Some (<[file := set_metadata fd md]> h)
    end.

Fixpoint load_file_nodes `{MetaDataModel} (d : fs.disk)
    (system : SystemData) (type : FileType) (h : store)
    (fileNodes : list xml_node) : option store :=
  match fileNodes with
  | [] => Some h
  | fileNode :: rest =>
      h ← load_file_node d system type h fileNode;
      load_file_nodes d system type h rest
  end.

Definition tag_of (type : FileType) : string :=
  match type with GAME => "game" | FOLDER => "folder" end.

(** [root.child(tag)] and its [next_sibling(tag)] chain. *)
Definition children_named (root : xml_node) (tag : string) : list xml_node :=
  List.filter (named tag) (node_children root).

Definition parseGamelist `{MetaDataModel} (d : fs.disk)
    (system : SystemData) (h : store) (file : xml_file) : option store :=
  match file with
  | NoFile | Malformed => Some h
  | Document doc =>
      match child_of doc "gameList" with
      | None => Some h
      | Some root =>
          h ← load_file_nodes d system GAME h (children_named root (tag_of GAME));
          load_file_nodes d system FOLDER h (children_named root (tag_of FOLDER))
      end
  end.

(** ** addFileDataNode and updateGamelist *)

(** [parent] is the list of children of the parent node; the result is
    that list after the call. *)
Definition addFileDataNode `{MetaDataModel} (parent : list xml_node)
    (file : FileData) (tag : string) : list xml_node :=
  (* parent.append_child(tag); metadata.appendToXML(newNode, true) *)
  let newNode := XNode tag EmptyString (appendToXML (metadata file)) in
  let first_is_name :=
    match node_children newNode with
    | c :: _ => named "name" c
    | [] => false
    end in
  let only_one :=
    match node_children newNode with
    | [_] => true
    | _ => false
    end in
  let name_is_default :=
    bool_decide (text_get (child newNode "name")
                 = getCleanFileName (getPath file)) in
  if first_is_name && only_one && name_is_default then
    (* parent.remove_child(newNode) *)
    parent
  else
    parent ++ [XNode tag EmptyString
                 (XNode "path" (fs.generic_string (getPath file)) []
                  :: node_children newNode)].

(** [addGameDataNode] has the body of [addFileDataNode] with the tag
    ["game"]. *)
Definition addGameDataNode `{MetaDataModel} (parent : list xml_node)
    (game : FileData) : list xml_node :=
  addFileDataNode parent game "game".

(** The test that decides whether an element of the document is the one of
    the current entry. *)
Definition same_file (d : fs.disk) (nodePath gamePath : fs.path) : bool :=
  bool_decide (nodePath = gamePath)
  || (fs.exists_ d nodePath && fs.exists_ d gamePath
      && fs.equivalent d nodePath gamePath).

(** The inner [for] loop of [updateGamelist] over the children of the root
    named [tag]: elements without a path child are passed over, the first
    element of the same file is removed and the scan ends. *)
Fixpoint remove_existing (d : fs.disk) (tag : string) (gamePath : fs.path)
    (root : list xml_node) : list xml_node :=
  match root with
  | [] => []
  | fileNode :: rest =>
      if named tag fileNode then
        match child fileNode "path" with
        | None => fileNode :: remove_existing d tag gamePath rest
        | Some pathNode =>
            let nodePath := fs.path_of_string (node_text pathNode) in
            if same_file d nodePath gamePath then rest
            else fileNode :: remove_existing d tag gamePath rest
        end
      else fileNode :: remove_existing d tag gamePath rest
  end.

(** The body of the [while] loop over [files]. *)
Definition update_file `{MetaDataModel} (d : fs.disk)
    (root : list xml_node) (file : FileData) : list xml_node :=
  let tag := tag_of (getType file) in
  addFileDataNode (remove_existing d tag (getPath file) root) file tag.

Definition update_files `{MetaDataModel} (d : fs.disk)
    (files : list FileData) (root : list xml_node) : list xml_node :=
  foldl (update_file d) root files.

(** The document with the children of its [gameList] node replaced. *)
Fixpoint set_root_children (doc : list xml_node) (children : list xml_node)
    : list xml_node :=
  match doc with
  | [] => []
  | n :: rest =>
      if named "gameList" n
      then XNode (node_name n) (node_text n) children :: rest
      else n :: set_root_children rest children
  end.

Record Settings := mkSettings {
  DisableGamelistWrites : bool;
  IGNOREGAMELIST : bool;
}.

(** The gamelist file after the call. [save_ok] tells whether [save_file]
    succeeds; a file that was written reads back as the document that was
    saved. [None]: an entry of the tree is reached through an invalid
    pointer. *)
Definition updateGamelist `{MetaDataModel} (cfg : Settings) (d : fs.disk)
    (save_ok : bool) (h : store) (system : SystemData) (file : xml_file)
    : option xml_file :=
  if DisableGamelistWrites cfg || IGNOREGAMELIST cfg then Some file
  else
    let loaded :=
      match file with
      | Document doc => Some doc
      | Malformed => None
      | NoFile => Some [XNode "gameList" EmptyString []]
      end in
    match loaded with
    | None => Some file
    | Some doc =>
        match child_of doc "gameList" with
        | None => Some file
        | Some root =>
            match getRootFolder system with
            | None => Some file
            | Some rootFolder =>
                _ ← h !! rootFolder;
                files ← mapM (λ fit : ptr, h !! fit)
                             (getFilesRecursive (size h) h rootFolder);
                let doc :=
                  set_root_children doc
                    (update_files d files (node_children root)) in
                Some (if save_ok then Document doc else file)
            end
        end
    end.

(** ** Notions used to state the properties *)

(** [h'] extends [h]: every entry of [h] is still there, with the same
    kind, path, metadata and parent, and its children of [h] come first
    among its children. *)
Definition grows (h h' : gmap nat FileData) : Prop :=
  ∀ l fd, h !! l = Some fd →
    ∃ fd', h' !! l = Some fd'
      ∧ getType fd' = getType fd
      ∧ getPath fd' = getPath fd
      ∧ metadata fd' = metadata fd
      ∧ getParent fd' = getParent fd
      ∧ getChildren fd `prefix_of` getChildren fd'.

(** Every pointer held by the tree is valid. *)
Definition closed (h : gmap nat FileData) : Prop :=
  ∀ l fd c, h !! l = Some fd → c ∈ getChildren fd → is_Some (h !! c).

(** Walking from [node] along the elements of a relative path, some element
    has no child of that name under the node reached so far. *)
Inductive no_match_along (h : gmap nat FileData)
    : nat → list string → Prop :=
  | no_match_here node fd name rest :
      h !! node = Some fd →
      find_child h name (getChildren fd) = Some None →
      no_match_along h node (name :: rest)
  | no_match_below node fd name child rest :
      h !! node = Some fd →
      find_child h name (getChildren fd) = Some (Some child) →
      no_match_along h child rest →
      no_match_along h node (name :: rest).

(** A child that is a folder and has the name: what a match is when it
    is asked to be a folder entry. *)
Definition folder_named (h : gmap nat FileData) (name : string) (c : nat)
    : Prop :=
  ∃ fd, h !! c = Some fd
    ∧ getType fd = FOLDER ∧ fs.filename (getPath fd) = [name].

(** Walking from [node] along the elements of a relative path, some element
    has no folder of that name under the node reached so far. *)
Inductive no_folder_along (h : gmap nat FileData)
    : nat → list string → Prop :=
  | no_folder_here node fd name rest :
      h !! node = Some fd →
      (∀ c, c ∈ getChildren fd → ¬ folder_named h name c) →
      no_folder_along h node (name :: rest)
  | no_folder_below node fd name child rest :
      h !! node = Some fd →
      find_child h name (getChildren fd) = Some (Some child) →
      no_folder_along h child rest →
      no_folder_along h node (name :: rest).

(** The call returns an entry, and a second call with the same arguments
    returns that entry and leaves the tree of the first call as it is. *)
Definition idempotent_at `{MetaDataModel} (d : fs.disk)
    (h : gmap nat FileData) (system : SystemData) (path : fs.path)
    (type : FileType) : Prop :=
  ∃ h1 (file : nat),
    findOrCreateFile d h system path type = Some (h1, Some file)
    ∧ findOrCreateFile d h1 system path type = Some (h1, Some file).

#[global] Arguments fs.path_of_string : simpl never.
#[global] Arguments fs.generic_string : simpl never.
#[global] Arguments new_FileData : simpl never.
#[global] Arguments addChild : simpl never.

(** The relative path [findOrCreateFile] walks, with the [contains] flag. *)
Definition relative_path (d : fs.disk) (h : gmap nat FileData)
    (system : SystemData) (path : fs.path) : option (fs.path * bool) :=
  root ← getRootFolder system;
  rootfd ← h !! root;
  removeCommonPath d path (getPath rootfd).

(** Validity of the pointers is decided by inspecting every entry. *)
#[global] Instance closed_dec (h : gmap nat FileData) : Decision (closed h).
Proof.
  refine (cast_if (decide (map_Forall
    (λ _ fd, Forall (λ c, is_Some (h !! c)) (getChildren fd)) h)));
    unfold closed.
  - intros l fd c Hl Hc. specialize (m l fd Hl). simpl in m.
    rewrite Forall_forall in m. by apply m.
  - intros Hcl. apply n. intros l fd Hl. simpl.
    apply Forall_forall. intros c Hc. by eapply Hcl.
Defined.

(** The entries [updateGamelist] iterates over. *)
Definition files_of (h : gmap nat FileData) (rootFolder : nat)
    : option (list FileData) :=
  mapM (λ fit : nat, h !! fit) (getFilesRecursive (size h) h rootFolder).

Definition tree_files (h : gmap nat FileData) (system : SystemData)
    : list FileData :=
  default [] (getRootFolder system ≫= files_of h).

(** The test of the inner loop of [updateGamelist] on one element: it has
    the tag, it has a path child, and that path is the path of the entry
    or names the same file. *)
Definition is_entry_of (d : fs.disk) (tag : string) (gamePath : fs.path)
    (fileNode : xml_node) : bool :=
  named tag fileNode
  && match child fileNode "path" with
     | Some pathNode =>
         same_file d (fs.path_of_string (node_text pathNode)) gamePath
     | None => false
     end.

Definition entry_of (d : fs.disk) (file : FileData) (fileNode : xml_node)
    : bool :=
  is_entry_of d (tag_of (getType file)) (getPath file) fileNode.

(** The elements of the document that are no entry's element. *)
Definition foreign (d : fs.disk) (files : list FileData)
    (root : list xml_node) : list xml_node :=
  List.filter (λ n, forallb (λ f, negb (entry_of d f n)) files) root.

(** What the scan for one entry takes out of the document: nothing when no
    element is the entry's, and otherwise the first element that is, and
    that one only. *)
Inductive removes_first (d : fs.disk) (file : FileData)
    : list xml_node → list xml_node → Prop :=
  | removes_none root :
      Forall (λ n, entry_of d file n = false) root →
      removes_first d file root root
  | removes_one before fileNode after :
      Forall (λ n, entry_of d file n = false) before →
      entry_of d file fileNode = true →
      removes_first d file (before ++ fileNode :: after) (before ++ after).

(** The rounds of a save, one for each entry in turn: the first element of
    the entry is taken out of the document as it stands, then the entry is
    written at its end. *)
Inductive save_rounds `{MetaDataModel} (d : fs.disk)
    : list FileData → list xml_node → list xml_node → Prop :=
  | save_done root : save_rounds d [] root root
  | save_round file files root kept root' :
      removes_first d file root kept →
      save_rounds d files
        (addFileDataNode kept file (tag_of (getType file))) root' →
      save_rounds d (file :: files) root root'.

(** The children of the [gameList] node of the file, if there is one. *)
Definition gamelist_children (file : xml_file) : list xml_node :=
  match file with
  | Document doc => from_option node_children [] (child_of doc "gameList")
  | NoFile | Malformed => []
  end.

(** A second run on the file the first run left returns that file. *)
Definition stable_at `{MetaDataModel} (cfg : Settings) (d : fs.disk)
    (save_ok : bool) (h : gmap nat FileData) (system : SystemData)
    (file : xml_file) : Prop :=
  ∃ file1,
    updateGamelist cfg d save_ok h system file = Some file1
    ∧ updateGamelist cfg d save_ok h system file1 = Some file1.

(** Two entries that claim the same elements: same kind, and paths that
    are equal or name the same file. *)
Definition alias (d : fs.disk) (f g : FileData) : bool :=
  bool_decide (getType f = getType g)
  && same_file d (getPath f) (getPath g).

(** The elements a run puts at the end of the document: each entry drops
    the elements of its own among those already put there, then adds its
    element if it has one. *)
Definition reappended `{MetaDataModel} (d : fs.disk)
    (files : list FileData) : list xml_node :=
  foldl (λ acc f,
           List.filter (λ n, negb (entry_of d f n)) acc
           ++ addFileDataNode [] f (tag_of (getType f)))
        [] files.

(** The slash-separated form of the entry's path reads back as the path. *)
Definition reparses (f : FileData) : Prop :=
  fs.path_of_string (fs.generic_string (getPath f)) = getPath f.

(** The document holds at most one element of the entry. *)
Definition at_most_one (d : fs.disk) (root : list xml_node) (f : FileData)
    : Prop :=
  (List.length (List.filter (entry_of d f) root) ≤ 1)%nat.

#[global] Instance reparses_dec (f : FileData) : Decision (reparses f).
Proof. unfold reparses. apply _. Defined.

#[global] Instance at_most_one_dec (d : fs.disk) (root : list xml_node)
    (f : FileData) : Decision (at_most_one d root f).
Proof. unfold at_most_one. apply _. Defined.

(** The root folder of the system, if it has one, is in the store. *)
Definition valid_root (h : gmap nat FileData) (system : SystemData) : Prop :=
  from_option (λ root : nat, is_Some (h !! root)) True (getRootFolder system).

#[global] Instance valid_root_dec (h : gmap nat FileData)
    (system : SystemData) : Decision (valid_root h system).
Proof. unfold valid_root. destruct (getRootFolder system); apply _. Defined.

(** ** Sample data *)

Module sample.

(** A metadata model with two declared keys, whose defaults are empty. *)
Definition keys : list string := ["name"; "desc"].

Definition model : MetaDataModel := {|
  createFromXML node :=
    foldl (λ md key, md_set md key (text_get (child node key))) ∅ keys;
  appendToXML md :=
    flat_map (λ key,
      match md !! key with
      | Some value => if decide (value = EmptyString) then [] else [XNode key value []]
      | None => []
      end) keys;
  getCleanFileName path :=
    match last path with
    | Some e => fs.stem_of_name e
    | None => EmptyString
    end;
|}.

(** A disk given by a table: pathname, the pathname it resolves to, and
    the identity of the file. Every other path does not exist. *)
Definition disk_of_table (table : list (string * string * N)) : fs.disk :=
  let entry p :=
    List.find (λ e, bool_decide (fs.path_of_string e.1.1 = p)) table in
  fs.Disk (λ p, (λ e, fs.path_of_string e.1.2) <$> entry p)
          (λ p, (λ e, e.2) <$> entry p).

Definition pi_disk : fs.disk :=
  disk_of_table
    [ ("/home/pi/roms/nes/", "/home/pi/roms/nes", 1%N);
      ("/home/pi/roms/nes", "/home/pi/roms/nes", 1%N);
      ("/home/pi/roms/nes/foo", "/home/pi/roms/nes/foo", 2%N);
      ("/home/pi/roms/nes/foo/bar.nes", "/home/pi/roms/nes/foo/bar.nes", 3%N);
      ("/home/pi/roms/nes/real.nes", "/home/pi/roms/nes/real.nes", 4%N);
      ("/home/pi/roms/nes/link.nes", "/home/pi/roms/nes/real.nes", 4%N) ].

Definition nes : fs.path := fs.path_of_string "/home/pi/roms/nes".
Definition bar_nes : fs.path := fs.path_of_string "/home/pi/roms/nes/foo/bar.nes".
Definition real_nes : fs.path := fs.path_of_string "/home/pi/roms/nes/real.nes".
Definition link_nes : fs.path := fs.path_of_string "/home/pi/roms/nes/link.nes".

(** A system whose tree is the root folder alone, at address 0. *)
Definition system : SystemData := mkSystemData (Some 0).

Definition root_only : gmap nat FileData :=
  {[ 0 := mkFileData FOLDER nes (md_set ∅ "name" "nes") [] None ]}.

Definition foo : fs.path := fs.path_of_string "/home/pi/roms/nes/foo".
Definition gone_nes : fs.path := fs.path_of_string "/home/pi/roms/nes/gone.nes".

Definition root_entry (children : list nat) : FileData :=
  mkFileData FOLDER nes (md_set ∅ "name" "nes") children None.

Definition foo_entry : FileData :=
  mkFileData FOLDER ["nes"; "foo"] (md_set ∅ "name" "foo") [2] (Some 0).

Definition bar_entry : FileData :=
  mkFileData GAME bar_nes (md_set ∅ "name" "bar") [] (Some 1).

(** The tree after [bar.nes] has been added to [root_only]. *)
Definition with_bar : gmap nat FileData :=
  {[ 0 := root_entry [1]; 1 := foo_entry; 2 := bar_entry ]}.

(** The tree after [link.nes] has been added to [root_only], and after it
    has been added again. *)
Definition link_entry : FileData :=
  mkFileData GAME link_nes (md_set ∅ "name" "link") [] (Some 0).

Definition with_link : gmap nat FileData :=
  {[ 0 := root_entry [1]; 1 := link_entry ]}.

Definition with_link_twice : gmap nat FileData :=
  {[ 0 := root_entry [1; 2]; 1 := link_entry; 2 := link_entry ]}.

(** A tree with one game that has a name of its own. *)
Definition real_entry : FileData :=
  mkFileData GAME real_nes (md_set ∅ "name" "Custom") [] (Some 0).

Definition one_game : gmap nat FileData :=
  {[ 0 := root_entry [1]; 1 := real_entry ]}.

Definition game_element (path name : string) : xml_node :=
  XNode "game" EmptyString [XNode "path" path []; XNode "name" name []].

Definition gamelist (elements : list xml_node) : xml_file :=
  Document [XNode "gameList" EmptyString elements].

Definition bar_element : xml_node :=
  XNode "game" EmptyString
    [XNode "path" "/home/pi/roms/nes/foo/bar.nes" [];
     XNode "desc" "A game" []].

Definition gone_element : xml_node :=
  game_element "/home/pi/roms/nes/gone.nes" "Gone".

Definition real_old : xml_node :=
  game_element "/home/pi/roms/nes/real.nes" "Old".
Definition real_older : xml_node :=
  game_element "/home/pi/roms/nes/real.nes" "Older".
Definition real_custom : xml_node :=
  game_element "/home/pi/roms/nes/real.nes" "Custom".

(** An entry whose only metadata is the default name of its path. *)
Definition real_default : FileData :=
  mkFileData GAME real_nes (md_set ∅ "name" "real") [] (Some 0).

Definition writes_enabled : Settings := mkSettings false false.

End sample.

(** ** Further notions *)

(** The test of the second loop of [removeCommonPath]. *)
Definition not_dot (e : string) : bool := bool_decide (e ≠ fs.dot).

(** Walking from [node] along the elements of a relative path, every
    element has a child of that name under the node reached so far;
    [target] is the child found for the last element. *)
Inductive resolves (h : gmap nat FileData) : nat → list string → nat → Prop :=
  | resolves_last node fd name target :
      h !! node = Some fd →
      find_child h name (getChildren fd) = Some (Some target) →
      resolves h node [name] target
  | resolves_step node fd name child rest target :
      rest ≠ [] →
      h !! node = Some fd →
      find_child h name (getChildren fd) = Some (Some child) →
      resolves h child rest target →
      resolves h node (name :: rest) target.

(** Every child names its parent through its back-reference. *)
Definition parent_linked (h : gmap nat FileData) : Prop :=
  ∀ l fd c, h !! l = Some fd → c ∈ getChildren fd →
    ∃ cfd, h !! c = Some cfd ∧ getParent cfd = Some l.

(** The filenames of the children of an entry, in order. *)
Definition sibling_names (h : gmap nat FileData) (fd : FileData)
    : list (option fs.path) :=
  (λ c : nat, (λ cfd, fs.filename (getPath cfd)) <$> h !! c)
    <$> getChildren fd.

(** No two children of an entry have the same filename. *)
Definition unique_names (h : gmap nat FileData) : Prop :=
  ∀ l fd, h !! l = Some fd → NoDup (sibling_names h fd).

(** The tree without its metadata. *)
Definition structure (h : gmap nat FileData) : gmap nat FileData :=
  (λ fd, set_metadata fd ∅) <$> h.

(** No entry of the list is an alias of a later one. *)
Fixpoint no_alias (d : fs.disk) (files : list FileData) : bool :=
  match files with
  | [] => true
  | g :: rest => forallb (λ f, negb (alias d g f)) rest && no_alias d rest
  end.

(** The element [addFileDataNode] writes for an entry into an empty
    parent, if it writes one. *)
Definition element_of `{MetaDataModel} (f : FileData) : list xml_node :=
  addFileDataNode [] f (tag_of (getType f)).

(** The kind an element is loaded as: the kind its tag names. *)
Definition kind_of (fileNode : xml_node) : FileType :=
  if named "folder" fileNode then FOLDER else GAME.

(** Loading the elements of a list one after the other, each as the kind
    of its tag. *)
Fixpoint load_in_order `{MetaDataModel} (d : fs.disk)
    (system : SystemData) (h : gmap nat FileData)
    (fileNodes : list xml_node) : option (gmap nat FileData) :=
  match fileNodes with
  | [] => Some h
  | fileNode :: rest =>
      h ← load_file_node d system (kind_of fileNode) h fileNode;
      load_in_order d system h rest
  end.

#[global] Instance parent_linked_dec (h : gmap nat FileData)
  : Decision (parent_linked h).
Proof.
  refine (cast_if (decide (map_Forall
    (λ (l : nat) fd,
       Forall (λ c : nat, getParent <$> h !! c = Some (Some l))
              (getChildren fd)) h)));
    unfold parent_linked.
  - intros l fd c Hl Hc. specialize (m l fd Hl). cbn in m.
    rewrite Forall_forall in m. specialize (m c Hc).
    destruct (h !! c) as [cfd|]; [|done]. cbn in m. exists cfd.
    split; [done|]. congruence.
  - intros Hpl. apply n. intros l fd Hl. cbn.
    apply Forall_forall. intros c Hc.
    destruct (Hpl l fd c Hl Hc) as (cfd & Hcfd & Hp).
    rewrite Hcfd. cbn. by rewrite Hp.
Defined.

#[global] Instance unique_names_dec (h : gmap nat FileData)
  : Decision (unique_names h).
Proof.
  refine (cast_if (decide (map_Forall
    (λ (_ : nat) fd, NoDup (sibling_names h fd)) h)));
    unfold unique_names.
  - intros l fd Hl. exact (m l fd Hl).
  - intros Hun. apply n. intros l fd Hl. exact (Hun l fd Hl).
Defined.

(** ** More sample data *)

Module more.

(** The disk of [sample], with two more games and a game of another
    system. *)
Definition disk : fs.disk :=
  sample.disk_of_table
    [ ("/home/pi/roms/nes/", "/home/pi/roms/nes", 1%N);
      ("/home/pi/roms/nes", "/home/pi/roms/nes", 1%N);
      ("/home/pi/roms/nes/a.nes", "/home/pi/roms/nes/a.nes", 5%N);
      ("/home/pi/roms/nes/b.nes", "/home/pi/roms/nes/b.nes", 6%N);
      ("/home/pi/roms/snes/mario.smc", "/home/pi/roms/snes/mario.smc", 7%N) ].

Definition nes_slash : fs.path := fs.path_of_string "/home/pi/roms/nes/".
Definition a_nes : fs.path := fs.path_of_string "/home/pi/roms/nes/a.nes".
Definition b_nes : fs.path := fs.path_of_string "/home/pi/roms/nes/b.nes".
Definition mario : fs.path :=
  fs.path_of_string "/home/pi/roms/snes/mario.smc".

(** A game with a name of its own and a game with nothing but its default
    name. *)
Definition a_entry : FileData :=
  mkFileData GAME a_nes (md_set ∅ "name" "Custom A") [] (Some 0).

Definition b_entry : FileData :=
  mkFileData GAME b_nes (md_set ∅ "name" "b") [] (Some 0).

Definition two_games : gmap nat FileData :=
  {[ 0 := sample.root_entry [1; 2]; 1 := a_entry; 2 := b_entry ]}.

Definition a_element : xml_node :=
  sample.game_element "/home/pi/roms/nes/a.nes" "Custom A".

Definition a_old : xml_node :=
  sample.game_element "/home/pi/roms/nes/a.nes" "Old A".

Definition b_old : xml_node :=
  sample.game_element "/home/pi/roms/nes/b.nes" "Old B".

Definition mario_element : xml_node :=
  sample.game_element "/home/pi/roms/snes/mario.smc" "Mario".

Definition foo_folder : xml_node :=
  XNode "folder" EmptyString
    [XNode "path" "/home/pi/roms/nes/foo" []; XNode "name" "Foo" []].

(** [sample.with_bar] after the folder element has been loaded. *)
Definition with_bar_named : gmap nat FileData :=
  {[ 0 := sample.root_entry [1];
     1 := set_metadata sample.foo_entry
            (md_set (md_set ∅ "name" "Foo") "desc" EmptyString);
     2 := sample.bar_entry ]}.

(** [sample.root_only] after the element of [bar.nes] has been loaded. *)
Definition with_bar_loaded : gmap nat FileData :=
  {[ 0 := sample.root_entry [1];
     1 := sample.foo_entry;
     2 := set_metadata sample.bar_entry
            (md_set (md_set ∅ "name" "bar") "desc" "A game") ]}.

(** [sample.root_only] after the element of [bar.nes] and then the folder
    element have been loaded. *)
Definition with_both_loaded : gmap nat FileData :=
  {[ 0 := sample.root_entry [1];
     1 := set_metadata sample.foo_entry
            (md_set (md_set ∅ "name" "Foo") "desc" EmptyString);
     2 := set_metadata sample.bar_entry
            (md_set (md_set ∅ "name" "bar") "desc" "A game") ]}.

Definition note : xml_node := XNode "note" "kept" [].

End more.

(** * Properties *)

(** ** Paths *)

Lemma root_path_app (r suffix : fs.path) :
  fs.is_absolute r = true → fs.root_path (r ++ suffix) = fs.root_path r.
Proof. destruct r as [|e r]; [done|]. reflexivity. Qed.

Lemma filename_snoc (p : fs.path) (name : string) :
  fs.filename (p // [name]) = [name].
Proof. unfold fs.filename, fs.append. by rewrite last_snoc. Qed.


(** ** removeCommonPath *)

(** Whatever a dereferenced end iterator yields, the loop condition has the
    same value: the end tests that follow decide. *)
Lemma divergence_cond_past_end (past_end : string)
    (itr_path itr_relative_to : iterator) :
  bool_decide (deref_or past_end itr_path = deref_or past_end itr_relative_to)
  && negb (at_end itr_path) && negb (at_end itr_relative_to)
  = divergence_cond itr_path itr_relative_to.
Proof.
  unfold divergence_cond.
  destruct itr_path, itr_relative_to; cbn;
    rewrite ?andb_false_r, ?andb_false_l; done.
Qed.

Lemma find_divergence_prefix (r suffix : iterator) (derefs : list iterator) :
  let dv := find_divergence (r ++ suffix) r derefs in
  div_path dv = suffix ∧ div_relative_to dv = [] ∧ [] ∈ div_derefs dv.
Proof.
  revert derefs. induction r as [|e r IH]; intros derefs.
  - simpl. destruct suffix as [|e suffix]; simpl.
    + split_and!; [done..|]. set_solver.
    + unfold divergence_cond. simpl. rewrite andb_false_r. simpl.
      split_and!; [done..|]. set_solver.
  - simpl. unfold divergence_cond. simpl.
    case_bool_decide; [|done]. simpl. apply IH.
Qed.

Lemma collect_rest_filter (result : fs.path) (itr_path : iterator) :
  collect_rest result itr_path
  = result ++ List.filter (λ e, bool_decide (e ≠ fs.dot)) itr_path.
Proof.
  revert result. induction itr_path as [|e l IH]; intros result; simpl.
  - by rewrite app_nil_r.
  - rewrite IH. case_decide; case_bool_decide; try done.
    unfold fs.append. by rewrite <- app_assoc.
Qed.

Lemma filter_no_dot (suffix : fs.path) :
  fs.dot ∉ suffix →
  List.filter (λ e, bool_decide (e ≠ fs.dot)) suffix = suffix.
Proof.
  induction suffix as [|e l IH]; [done|]. intros Hn. simpl.
  case_bool_decide; [|set_solver].
  f_equal. apply IH. set_solver.
Qed.

(** C1. A path whose canonical form extends the canonical form of the root
    is reported as contained; the relative path returned is the extension
    without its ["."] elements, and joined to the canonical root it gives
    back the canonical form of the path. *)
Theorem removeCommonPath_contained (d : fs.disk)
    (path relativeTo p r suffix : fs.path) :
  fs.canonical d path = Some p →
  fs.canonical d relativeTo = Some r →
  fs.is_absolute r = true →
  p = r ++ suffix →
  let relative := List.filter (λ e, bool_decide (e ≠ fs.dot)) suffix in
  removeCommonPath d path relativeTo = Some (relative, true)
  ∧ (fs.dot ∉ suffix → r // relative = p).
Proof.
  intros Hp Hr Habs -> relative. split.
  - unfold removeCommonPath. rewrite Hp, Hr. simpl.
    rewrite root_path_app by done.
    case_decide; [done|].
    destruct (find_divergence_prefix r suffix []) as (Hdp & Hdr & _).
    rewrite Hdr, Hdp. simpl. by rewrite collect_rest_filter.
  - intros Hdot. unfold relative. by rewrite filter_no_dot.
Qed.

Lemma removeCommonPath_contained_witness :
  removeCommonPath sample.pi_disk sample.bar_nes
    (fs.path_of_string "/home/pi/roms/nes/") = Some (["foo"; "bar.nes"], true)
  ∧ sample.nes // ["foo"; "bar.nes"] = sample.bar_nes.
Proof.
  destruct (removeCommonPath_contained sample.pi_disk sample.bar_nes
              (fs.path_of_string "/home/pi/roms/nes/")
              sample.bar_nes sample.nes ["foo"; "bar.nes"]) as [Hc Hj];
    try (vm_compute; reflexivity).
  split; [exact Hc|]. apply Hj.
  apply (bool_decide_unpack _). vm_compute. exact I.
Defined.

Lemma find_divergence_end_deref (p r : iterator) (derefs : list iterator) :
  at_end (div_relative_to (find_divergence p r derefs)) = true →
  [] ∈ div_derefs (find_divergence p r derefs).
Proof.
  revert r derefs. induction p as [|x p IH]; intros r derefs.
  - simpl. destruct (divergence_cond [] r); simpl;
      (destruct r; [|done]); set_solver.
  - destruct r as [|y r].
    + simpl. unfold divergence_cond. simpl. rewrite andb_false_r. simpl.
      set_solver.
    + simpl. destruct (divergence_cond (x :: p) (y :: r)); [|done].
      apply IH.
Qed.

(** The contained case always ends its search on the end iterator of the
    root, which the loop condition has dereferenced. *)
Lemma contained_derefs_end (d : fs.disk)
    (path relativeTo relative : fs.path) :
  removeCommonPath d path relativeTo = Some (relative, true) →
  ∃ derefs, removeCommonPath_derefs d path relativeTo = Some derefs
            ∧ [] ∈ derefs.
Proof.
  unfold removeCommonPath, removeCommonPath_derefs.
  destruct (fs.canonical d path) as [p|]; [|done].
  destruct (fs.canonical d relativeTo) as [r|]; [|done]. simpl.
  case_decide; [done|].
  destruct (at_end (div_relative_to (find_divergence p r []))) eqn:Hend;
    [|done].
  intros _. eexists; split; [done|].
  by apply find_divergence_end_deref.
Qed.

(** C10. On the example of the source's own comment the divergence search
    dereferences the end iterator of the root's elements. *)
Theorem removeCommonPath_derefs_end_iterator :
  ∃ derefs,
    removeCommonPath_derefs sample.pi_disk sample.bar_nes
      (fs.path_of_string "/home/pi/roms/nes/") = Some derefs
    ∧ [] ∈ derefs.
Proof.
  apply (contained_derefs_end _ _ _ ["foo"; "bar.nes"]).
  vm_compute. reflexivity.
Qed.

(** ** The store *)

Section tree.
Context `{MetaDataModel}.
Implicit Types h : gmap nat FileData.

Lemma grows_refl h : grows h h.
Proof. intros l fd Hl. exists fd. by split_and!. Qed.

Lemma grows_trans h1 h2 h3 : grows h1 h2 → grows h2 h3 → grows h1 h3.
Proof.
  intros H12 H23 l fd Hl.
  destruct (H12 l fd Hl) as (fd2 & Hl2 & Ht2 & Hp2 & Hm2 & Hpa2 & Hc2).
  destruct (H23 l fd2 Hl2) as (fd3 & Hl3 & Ht3 & Hp3 & Hm3 & Hpa3 & Hc3).
  exists fd3. split_and!; try congruence. by etrans.
Qed.

(** The effect of [new FileData] followed by [addChild]. *)
Lemma addChild_new h (treeNode : nat) node type path h1 file :
  h !! treeNode = Some node →
  new_FileData h type path = (h1, file) →
  ∃ h2, addChild h1 treeNode file = Some h2
    ∧ h !! file = None
    ∧ h2 !! file
      = Some (mkFileData type path (md_set ∅ "name" (getCleanFileName path))
                         [] (Some treeNode))
    ∧ h2 !! treeNode = Some (set_children node (getChildren node ++ [file]))
    ∧ (∀ l, l ≠ file → l ≠ treeNode → h2 !! l = h !! l).
Proof.
  intros Hnode Hnew. unfold new_FileData in Hnew. simplify_eq.
  set (file := fresh (dom h)).
  assert (h !! file = None) as Hfresh
    by (apply not_elem_of_dom, is_fresh).
  assert (file ≠ treeNode) as Hne by congruence.
  unfold addChild. rewrite lookup_insert_ne by done. rewrite Hnode. simpl.
  rewrite lookup_insert_ne by done. rewrite lookup_insert_eq. simpl.
  eexists; split; [done|]. split_and!; [done|..].
  - by rewrite lookup_insert_eq.
  - rewrite lookup_insert_ne by done. by rewrite lookup_insert_eq.
  - intros l Hl1 Hl2. by rewrite !lookup_insert_ne by done.
Qed.

Lemma created_grows h h2 (treeNode file : nat) node fd :
  h !! treeNode = Some node →
  h !! file = None →
  h2 !! file = Some fd →
  h2 !! treeNode = Some (set_children node (getChildren node ++ [file])) →
  (∀ l, l ≠ file → l ≠ treeNode → h2 !! l = h !! l) →
  grows h h2.
Proof.
  intros Hnode Hfresh Hfile Htree Hother l fd' Hl.
  destruct (decide (l = treeNode)) as [->|Hne].
  - simplify_eq. eexists; split; [done|]. split_and!; try done.
    simpl. by apply prefix_app_r.
  - assert (l ≠ file) by congruence.
    exists fd'. rewrite Hother by done. by split_and!.
Qed.

Lemma created_closed h h2 (treeNode file : nat) node fd :
  closed h →
  h !! treeNode = Some node →
  h2 !! file = Some fd → getChildren fd = [] →
  h2 !! treeNode = Some (set_children node (getChildren node ++ [file])) →
  (∀ l, l ≠ file → l ≠ treeNode → h2 !! l = h !! l) →
  closed h2.
Proof.
  intros Hcl Hnode Hfile Hnil Htree Hother l fd' c Hl Hc.
  assert (∀ c', is_Some (h !! c') → is_Some (h2 !! c')) as Hmono.
  { intros c' Hc'. destruct (decide (c' = file)) as [->|]; [by eexists|].
    destruct (decide (c' = treeNode)) as [->|]; [by eexists|].
    by rewrite Hother. }
  destruct (decide (l = file)) as [->|Hlf].
  { simplify_eq. rewrite Hnil in Hc. by apply elem_of_nil in Hc. }
  destruct (decide (l = treeNode)) as [->|Hlt].
  - simplify_eq. simpl in Hc. apply elem_of_app in Hc as [Hc|Hc].
    + apply Hmono. by eapply Hcl.
    + apply list_elem_of_singleton in Hc as ->. by eexists.
  - rewrite Hother in Hl by done. apply Hmono. by eapply Hcl.
Qed.

(** ** The search among the children *)

Lemma find_child_total h name (children : list nat) :
  (∀ c, c ∈ children → is_Some (h !! c)) →
  is_Some (find_child h name children).
Proof.
  induction children as [|c cs IH]; intros Hv; simpl; [by eexists|].
  destruct (Hv c) as [fd Hfd]; [set_solver|]. rewrite Hfd. simpl.
  case_decide; [by eexists|]. apply IH. intros c' Hc'. apply Hv. set_solver.
Qed.

Lemma find_child_Some h name (children : list nat) child :
  find_child h name children = Some (Some child) →
  child ∈ children
  ∧ ∃ fd, h !! child = Some fd ∧ fs.filename (getPath fd) = [name].
Proof.
  induction children as [|c cs IH]; simpl; [done|].
  destruct (h !! c) as [fd|] eqn:Hc; [|done]. simpl.
  case_decide.
  - intros [= <-]. split; [by left|]. eauto.
  - intros Hf. destruct (IH Hf) as [? ?]. split; [by right|done].
Qed.

Lemma find_child_found_grows h h' name (children extra : list nat) child :
  grows h h' →
  find_child h name children = Some (Some child) →
  find_child h' name (children ++ extra) = Some (Some child).
Proof.
  intros Hg. induction children as [|c cs IH]; simpl; [done|].
  destruct (h !! c) as [fd|] eqn:Hc; [|done]. simpl.
  destruct (Hg c fd Hc) as (fd' & Hc' & _ & Hp & _).
  rewrite Hc'. simpl. rewrite Hp.
  case_decide; [done|]. apply IH.
Qed.

Lemma find_child_none_grows h h' name (children rest : list nat) :
  grows h h' →
  find_child h name children = Some None →
  find_child h' name (children ++ rest) = find_child h' name rest.
Proof.
  intros Hg. induction children as [|c cs IH]; simpl; [done|].
  destruct (h !! c) as [fd|] eqn:Hc; [|done]. simpl.
  destruct (Hg c fd Hc) as (fd' & Hc' & _ & Hp & _).
  rewrite Hc'. simpl. rewrite Hp.
  case_decide; [done|]. apply IH.
Qed.

End tree.

(** ** The walk of [findOrCreateFile] *)

Section descend.
Context `{MetaDataModel}.
Implicit Types h : gmap nat FileData.

(** One round of the loop, with the node and the search made explicit. *)
Ltac descend_round Hd nd Hnode found Hfind :=
  cbn in Hd;
  match type of Hd with
  | context [?h !! ?node] =>
      destruct (h !! node) as [nd|] eqn:Hnode; [|done]
  end;
  cbn in Hd;
  match type of Hd with
  | context [find_child ?h ?name ?cs] =>
      destruct (find_child h name cs) as [found|] eqn:Hfind; [|done]
  end;
  cbn in Hd.

Ltac descend_create Hd Hnode h1 file h2 Hadd Hfresh Hfile Htree Hother :=
  match type of Hd with
  | context [new_FileData ?h ?t ?p] =>
      let Hnew := fresh "Hnew" in
      destruct (new_FileData h t p) as [h1 file] eqn:Hnew;
      destruct (addChild_new _ _ _ _ _ _ _ Hnode Hnew)
        as (h2 & Hadd & Hfresh & Hfile & Htree & Hother);
      rewrite Hadd in Hd; cbn in Hd
  end.

Lemma descend_grows type path h (node : nat) it h' r :
  descend type path h node it = Some (h', r) → grows h h'.
Proof.
  revert h node. induction it as [|name rest IH]; intros h node Hd.
  { cbn in Hd. simplify_eq. apply grows_refl. }
  descend_round Hd nd Hnode found Hfind.
  destruct (at_end rest).
  - destruct found as [child|]; [simplify_eq; apply grows_refl|].
    case_decide; [simplify_eq; apply grows_refl|].
    descend_create Hd Hnode h1 file h2 Hadd Hfresh Hfile Htree Hother.
    simplify_eq. by apply (created_grows _ _ _ _ _ _ Hnode Hfresh Hfile Htree Hother).
  - destruct found as [child|]; [by eapply IH|].
    case_decide; [simplify_eq; apply grows_refl|].
    descend_create Hd Hnode h1 file h2 Hadd Hfresh Hfile Htree Hother.
    eapply grows_trans; [by apply (created_grows _ _ _ _ _ _ Hnode Hfresh Hfile Htree Hother)|by eapply IH].
Qed.

(** On a tree whose pointers are valid the walk returns. *)
Lemma descend_total type path h (node : nat) it :
  closed h → is_Some (h !! node) →
  is_Some (descend type path h node it).
Proof.
  revert h node. induction it as [|name rest IH]; intros h node Hcl [nd Hnode].
  { by eexists. }
  cbn. rewrite Hnode. cbn.
  destruct (find_child_total h name (getChildren nd)) as [found Hfind].
  { intros c Hc. by eapply Hcl. }
  rewrite Hfind. cbn.
  destruct (at_end rest).
  - destruct found as [child|]; [by eexists|].
    case_decide; [by eexists|].
    destruct (new_FileData h type path) as [h1 file] eqn:Hnew.
    destruct (addChild_new _ _ _ _ _ _ _ Hnode Hnew)
      as (h2 & Hadd & Hfresh & Hfile & Htree & Hother).
    rewrite Hadd. by eexists.
  - destruct found as [child|].
    + apply IH; [done|].
      apply find_child_Some in Hfind as (_ & fd & Hfd & _). by eexists.
    + case_decide; [by eexists|].
      destruct (new_FileData h FOLDER (fs.stem (getPath nd) // [name]))
        as [h1 file] eqn:Hnew.
      destruct (addChild_new _ _ _ _ _ _ _ Hnode Hnew)
        as (h2 & Hadd & Hfresh & Hfile & Htree & Hother).
      rewrite Hadd. cbn. apply IH; [|by eexists].
      exact (created_closed h h2 node file nd _ Hcl Hnode Hfile eq_refl
               Htree Hother).
Qed.

(** The walk repeated on the tree it produced finds what it found or
    made, when the entry it makes is stored under the name it looks up. *)
Lemma descend_again type path h (node : nat) it h' r :
  (∀ name, last it = Some name → fs.filename path = [name]) →
  descend type path h node it = Some (h', r) →
  descend type path h' node it = Some (h', r).
Proof.
  revert h node. induction it as [|name rest IH]; intros h node Hname Hd.
  { cbn in Hd. by simplify_eq. }
  pose proof (descend_grows _ _ _ _ _ _ _ Hd) as Hg.
  descend_round Hd nd Hnode found Hfind.
  destruct (Hg node nd Hnode) as (nd' & Hnode' & _ & _ & _ & _ & [extra Hkids]).
  destruct (at_end rest) eqn:Hend.
  - destruct rest; [|done].
    destruct found as [child|]; [by simplify_eq; cbn; rewrite Hnode; cbn; rewrite Hfind|].
    case_decide as Hty; [by simplify_eq; cbn; rewrite Hnode; cbn; rewrite Hfind; cbn; rewrite decide_True|].
    descend_create Hd Hnode h1 file h2 Hadd Hfresh Hfile Htree Hother.
    clear Hnode' Hkids. simplify_eq. cbn. rewrite Htree. cbn.
    rewrite (find_child_none_grows h h' name (getChildren nd) [file] Hg Hfind).
    cbn. rewrite Hfile. cbn.
    destruct (decide (fs.filename path = [name])) as [Hq|Hq]; [done|].
    exfalso. by apply Hq, Hname.
  - assert (∀ name', last rest = Some name' → fs.filename path = [name'])
      as Hname'.
    { intros name' Hl. apply Hname. destruct rest; [done|]. done. }
    cbn. rewrite Hnode'. cbn. rewrite Hend.
    destruct found as [child|].
    + rewrite Hkids.
      rewrite (find_child_found_grows h h' name _ extra child Hg Hfind).
      cbn. by eapply IH.
    + case_decide as Hty.
      { simplify_eq. by rewrite Hfind. }
      descend_create Hd Hnode h1 folder h2 Hadd Hfresh Hfile Htree Hother.
      pose proof (descend_grows _ _ _ _ _ _ _ Hd) as Hg2.
      destruct (Hg2 node _ Htree)
        as (nd2 & Hnode2 & _ & _ & _ & _ & [extra2 Hkids2]).
      destruct (Hg2 folder _ Hfile) as (fd2 & Hfolder2 & _ & Hpath2 & _).
      rewrite Hnode' in Hnode2. simplify_eq. cbn in Hkids2.
      rewrite Hkids2. rewrite <- app_assoc.
      rewrite (find_child_none_grows h h' name (getChildren nd)
                 ([folder] ++ extra2) Hg Hfind).
      cbn. rewrite Hfolder2. cbn. rewrite Hpath2. cbn.
      rewrite filename_snoc.
      case_decide; [|done].
      cbn. by eapply IH.
Qed.

(** A request for a folder never touches the tree. *)
Lemma descend_folder_pure path h (node : nat) it h' r :
  descend FOLDER path h node it = Some (h', r) → h' = h.
Proof.
  revert h node. induction it as [|name rest IH]; intros h node Hd.
  { cbn in Hd. by simplify_eq. }
  descend_round Hd nd Hnode found Hfind.
  destruct (at_end rest).
  - destruct found; [by simplify_eq|].
    case_decide; [by simplify_eq|done].
  - destruct found as [child|]; [by eapply IH|].
    case_decide; [by simplify_eq|done].
Qed.

Lemma descend_folder_no_match path h (node : nat) it :
  no_match_along h node it →
  descend FOLDER path h node it = Some (h, None).
Proof.
  induction 1 as [node fd name rest Hnode Hfind
                 |node fd name child rest Hnode Hfind Hrest IH];
    cbn; rewrite Hnode; cbn; rewrite Hfind; cbn.
  - destruct (at_end rest); by case_decide.
  - destruct rest as [|name' rest]; [by inversion Hrest|]. done.
Qed.

End descend.

(** ** findOrCreateFile *)

Section findOrCreateFile.
Context `{MetaDataModel}.
Implicit Types h : gmap nat FileData.

Lemma findOrCreateFile_descend (d : fs.disk) h system path type relative :
  relative_path d h system path = Some (relative, true) →
  ∃ root, getRootFolder system = Some root ∧ is_Some (h !! root)
    ∧ findOrCreateFile d h system path type
      = descend type path h root relative.
Proof.
  unfold relative_path, findOrCreateFile. intros Hrel.
  destruct (getRootFolder system) as [root|]; [|done]. cbn in *.
  destruct (h !! root) as [rootfd|] eqn:Hfd; [|done]. cbn in *.
  rewrite Hrel. cbn. exists root. split_and!; [done|by eexists|done].
Qed.

Lemma relative_path_grows (d : fs.disk) h h' system path :
  grows h h' → is_Some (relative_path d h system path) →
  relative_path d h' system path = relative_path d h system path.
Proof.
  unfold relative_path. intros Hg [x Hx].
  destruct (getRootFolder system) as [root|]; [|done]. cbn in *.
  destruct (h !! root) as [rootfd|] eqn:Hroot; [|done]. cbn in *.
  destruct (Hg root rootfd Hroot) as (fd' & -> & _ & Hp & _). cbn.
  by rewrite Hp.
Qed.

Lemma find_child_none_folder h name (children : list nat) :
  find_child h name children = Some None →
  ∀ c, c ∈ children → ¬ folder_named h name c.
Proof.
  induction children as [|c0 rest IH]; cbn; intros Hfind c Hc.
  { by apply elem_of_nil in Hc. }
  destruct (h !! c0) as [fd0|] eqn:Hc0; [|done]. cbn in Hfind.
  case_decide as Hname; [done|].
  apply elem_of_cons in Hc as [->|Hc]; [|by apply IH].
  intros (fd & Hfd & _ & Hn). congruence.
Qed.

(** Where no child has the name, no folder has it: the walks that meet a
    node without a child of the name are among those that meet a node
    without a folder of the name. *)
Lemma no_match_no_folder h (node : nat) it :
  no_match_along h node it → no_folder_along h node it.
Proof.
  induction 1 as [node fd name rest Hnode Hfind
                 |node fd name child rest Hnode Hfind _ IH].
  - eapply no_folder_here; [done|]. by apply find_child_none_folder.
  - by eapply no_folder_below.
Qed.

(** C3, as amended. A request for a folder whose relative path meets, at
    some element, a node without a child of that name, of either kind,
    fails and leaves the tree as it was. *)
Theorem findOrCreateFile_folder_missing (d : fs.disk) h system path
    (root : nat) relative :
  getRootFolder system = Some root →
  relative_path d h system path = Some (relative, true) →
  no_match_along h root relative →
  findOrCreateFile d h system path FOLDER = Some (h, None).
Proof.
  intros Hroot Hrel Hmiss.
  destruct (findOrCreateFile_descend d h system path FOLDER relative Hrel)
    as (root' & Hroot' & _ & ->).
  simplify_eq. by apply descend_folder_no_match.
Qed.

(** Whatever the path, a request for a folder leaves the tree as it was. *)
Lemma findOrCreateFile_folder_pure (d : fs.disk) h system path h' r :
  findOrCreateFile d h system path FOLDER = Some (h', r) → h' = h.
Proof.
  unfold findOrCreateFile. intros Hf.
  destruct (getRootFolder system) as [root|]; [|done]. cbn in *.
  destruct (h !! root) as [rootfd|]; [|done]. cbn in *.
  destruct (removeCommonPath d path (getPath rootfd)) as [[rel c]|]; [|done].
  cbn in *. destruct c; cbn in *; [|by simplify_eq].
  by eapply descend_folder_pure.
Qed.



End findOrCreateFile.

(** ** parseGamelist *)

Section parseGamelist.
Context `{MetaDataModel}.
Implicit Types h : gmap nat FileData.

(** C5. For an element whose path exists and whose entry is found or
    made, the entry keeps its kind, path, children and parent, every other
    entry is untouched, and its metadata are the metadata parsed from the
    element, except that an empty parsed name is replaced by the name the
    entry had before. *)
Theorem load_file_node_metadata (d : fs.disk) system type h fileNode h1
    (file : nat) fd :
  let path := fs.path_of_string (text_get (child fileNode "path")) in
  let parsed := createFromXML fileNode in
  fs.exists_ d path = true →
  findOrCreateFile d h system path type = Some (h1, Some file) →
  h1 !! file = Some fd →
  ∃ h2 fd',
    load_file_node d system type h fileNode = Some h2
    ∧ h2 !! file = Some fd'
    ∧ (∀ l : nat, l ≠ file → h2 !! l = h1 !! l)
    ∧ getType fd' = getType fd
    ∧ getPath fd' = getPath fd
    ∧ getChildren fd' = getChildren fd
    ∧ getParent fd' = getParent fd
    ∧ (∀ key, key ≠ "name" → metadata fd' !! key = parsed !! key)
    ∧ md_get (metadata fd') "name"
      = (if decide (md_get parsed "name" = EmptyString)
         then md_get (metadata fd) "name"
         else md_get parsed "name")
    ∧ (md_get parsed "name" ≠ EmptyString → metadata fd' = parsed).
Proof.
  intros path parsed Hex Hfind Hfd.
  unfold load_file_node. fold path. rewrite Hex. cbn.
  rewrite Hfind. cbn. rewrite Hfd. cbn. fold parsed.
  eexists _, _. split; [done|]. split; [by rewrite lookup_insert_eq|].
  split; [by intros l Hl; rewrite lookup_insert_ne|].
  cbn. split_and!; try done.
  - intros key Hkey. case_decide; [|done].
    unfold md_set. by rewrite lookup_insert_ne.
  - case_decide; [|done]. unfold md_set, md_get.
    by rewrite lookup_insert_eq.
  - intros Hne. by case_decide.
Qed.

Lemma load_file_nodes_app (d : fs.disk) system type h before after :
  load_file_nodes d system type h (before ++ after)
  = load_file_nodes d system type h before
    ≫= λ h, load_file_nodes d system type h after.
Proof.
  revert h. induction before as [|n before IH]; intros h; cbn; [done|].
  destruct (load_file_node d system type h n) as [h1|]; cbn; [|done].
  apply IH.
Qed.

(** C6. An element whose path does not exist on disk is passed over: the
    tree after it is the tree before it, and the whole pass over the
    elements gives what it gives without that element. *)
Theorem load_file_node_stale (d : fs.disk) system type h fileNode :
  fs.exists_ d (fs.path_of_string (text_get (child fileNode "path"))) = false →
  load_file_node d system type h fileNode = Some h
  ∧ ∀ h0 before after,
      load_file_nodes d system type h0 (before ++ fileNode :: after)
      = load_file_nodes d system type h0 (before ++ after).
Proof.
  intros Hex.
  assert (∀ h', load_file_node d system type h' fileNode = Some h') as Hskip.
  { intros h'. unfold load_file_node. by rewrite Hex. }
  split; [done|]. intros h0 before after.
  rewrite !load_file_nodes_app.
  destruct (load_file_nodes d system type h0 before) as [h1|]; cbn; [|done].
  by rewrite Hskip.
Qed.

End parseGamelist.

(** ** Filtering with a boolean test *)

Section filter.
Context {A : Type}.
Implicit Types (P Q : A → bool) (l : list A).

Lemma filter_none P l :
  List.length (List.filter P l) = 0%nat →
  List.filter (λ x, negb (P x)) l = l.
Proof.
  induction l as [|x l IH]; cbn; [done|].
  destruct (P x); cbn; [done|]. intros Hl. f_equal. by apply IH.
Qed.

Lemma filter_length_bound P l :
  (List.length (List.filter P l) ≤ List.length l)%nat.
Proof.
  induction l as [|x l IH]; cbn; [done|]. destruct (P x); cbn; lia.
Qed.

Lemma filter_filter_length P Q l :
  (List.length (List.filter P (List.filter Q l))
   ≤ List.length (List.filter P l))%nat.
Proof.
  induction l as [|x l IH]; cbn; [done|].
  destruct (Q x), (P x) eqn:HP; cbn; rewrite ?HP; cbn; lia.
Qed.

Lemma filter_all_false P l :
  (∀ x, x ∈ l → P x = false) → List.filter P l = [].
Proof.
  induction l as [|x l IH]; cbn; [done|]. intros Hf.
  rewrite (Hf x) by (by left). apply IH. intros y Hy. apply Hf. by right.
Qed.

Lemma filter_idem P l : List.filter P (List.filter P l) = List.filter P l.
Proof.
  induction l as [|x l IH]; cbn; [done|].
  destruct (P x) eqn:HP; cbn; rewrite ?HP; by rewrite ?IH.
Qed.

Lemma elem_of_filter_bool P l x :
  x ∈ List.filter P l ↔ x ∈ l ∧ P x = true.
Proof. rewrite !list_elem_of_In. apply filter_In. Qed.

End filter.

(** ** addFileDataNode *)

Section addFileDataNode.
Context `{MetaDataModel}.

(** The element a call appends to an empty parent: none, or one. *)
Lemma addFileDataNode_app (parent : list xml_node) file tag :
  addFileDataNode parent file tag = parent ++ addFileDataNode [] file tag.
Proof.
  unfold addFileDataNode.
  destruct (_ && _ && _); [by rewrite app_nil_r|done].
Qed.

(** C7. If the metadata written for an entry are a single [name] child
    whose text is the default name of the entry's path, the parent is left
    as it was and nothing is written; in every other case the element is
    kept at the end of the parent, with a [path] child holding the
    slash-separated path put before the metadata. *)
Theorem addFileDataNode_elision (parent : list xml_node) file tag :
  let written := appendToXML (metadata file) in
  let default_only :=
    ∃ only, written = [only] ∧ node_name only = "name"
            ∧ node_text only = getCleanFileName (getPath file) in
  (default_only → addFileDataNode parent file tag = parent)
  ∧ (¬ default_only →
     addFileDataNode parent file tag
     = parent ++ [XNode tag EmptyString
                    (XNode "path" (fs.generic_string (getPath file)) []
                     :: written)]).
Proof.
  intros written default_only. unfold addFileDataNode. cbn. fold written.
  split.
  - intros (only & -> & Hname & Htext). unfold child, child_of, named. cbn.
    rewrite !(bool_decide_eq_true_2 _ Hname). cbn.
    by rewrite (bool_decide_eq_true_2 _ Htext).
  - intros Hnot.
    destruct written as [|only [|second rest]] eqn:Hw; cbn; [done| |].
    + unfold child, child_of, named. cbn.
      case_bool_decide as Hnamed; cbn; [|done].
      case_bool_decide as Htext; [|done].
      exfalso. apply Hnot. by exists only.
    + by rewrite andb_false_r.
Qed.

Lemma addFileDataNode_cases file tag :
  addFileDataNode [] file tag = []
  ∨ addFileDataNode [] file tag
    = [XNode tag EmptyString
         (XNode "path" (fs.generic_string (getPath file)) []
          :: appendToXML (metadata file))].
Proof. unfold addFileDataNode. destruct (_ && _ && _); eauto. Qed.

End addFileDataNode.

(** ** The scan of updateGamelist *)

Section remove_existing.
Variable d : fs.disk.

Lemma remove_existing_cons tag gamePath fileNode rest :
  remove_existing d tag gamePath (fileNode :: rest)
  = if is_entry_of d tag gamePath fileNode then rest
    else fileNode :: remove_existing d tag gamePath rest.
Proof.
  unfold is_entry_of. cbn. destruct (named tag fileNode); cbn; [|done].
  by destruct (child fileNode "path").
Qed.

Lemma remove_existing_none tag gamePath root :
  Forall (λ n, is_entry_of d tag gamePath n = false) root →
  remove_existing d tag gamePath root = root.
Proof.
  induction 1 as [|n root Hn _ IH]; [done|].
  by rewrite remove_existing_cons, Hn, IH.
Qed.

Lemma remove_existing_first tag gamePath before fileNode after :
  Forall (λ n, is_entry_of d tag gamePath n = false) before →
  is_entry_of d tag gamePath fileNode = true →
  remove_existing d tag gamePath (before ++ fileNode :: after)
  = before ++ after.
Proof.
  intros Hbefore Hn. induction Hbefore as [|n before Hf _ IH].
  - cbn [app]. by rewrite remove_existing_cons, Hn.
  - cbn [app]. by rewrite remove_existing_cons, Hf, IH.
Qed.

Lemma remove_existing_filter tag gamePath root :
  (List.length (List.filter (is_entry_of d tag gamePath) root) ≤ 1)%nat →
  remove_existing d tag gamePath root
  = List.filter (λ n, negb (is_entry_of d tag gamePath n)) root.
Proof.
  induction root as [|n root IH]; [done|].
  rewrite remove_existing_cons. cbn.
  destruct (is_entry_of d tag gamePath n); cbn; intros Hle.
  - symmetry. apply filter_none. lia.
  - f_equal. by apply IH.
Qed.

Lemma sublist_remove_existing tag gamePath (kept root : list xml_node) :
  kept `sublist_of` root →
  Forall (λ n, is_entry_of d tag gamePath n = false) kept →
  kept `sublist_of` remove_existing d tag gamePath root.
Proof.
  induction 1 as [|n kept root _ IH|n kept root Hsub IH]; intros Hkept.
  - apply sublist_nil_l.
  - inversion Hkept as [|? ? Hn Hrest]; subst.
    rewrite remove_existing_cons, Hn. constructor. by apply IH.
  - rewrite remove_existing_cons.
    destruct (is_entry_of d tag gamePath n); [done|].
    constructor. by apply IH.
Qed.

End remove_existing.

(** ** updateGamelist *)

Section updateGamelist.
Context `{MetaDataModel}.
Variable d : fs.disk.
Implicit Types (f g file : FileData) (n : xml_node) (root : list xml_node)
  (xml : xml_file).

Lemma update_file_eq root file :
  update_file d root file
  = remove_existing d (tag_of (getType file)) (getPath file) root
    ++ addFileDataNode [] file (tag_of (getType file)).
Proof. unfold update_file. apply addFileDataNode_app. Qed.

Lemma update_files_snoc files file root :
  update_files d (files ++ [file]) root
  = update_file d (update_files d files root) file.
Proof. unfold update_files. by rewrite foldl_snoc. Qed.

(** Elements that are no element of any entry stay, in their order. *)
Lemma update_files_keeps files (kept root : list xml_node) :
  kept `sublist_of` root →
  Forall (λ n, Forall (λ f, entry_of d f n = false) files) kept →
  kept `sublist_of` update_files d files root.
Proof.
  revert root. induction files as [|f files IH]; intros root Hsub Hkept.
  { done. }
  cbn. apply IH.
  - rewrite update_file_eq. apply sublist_inserts_r.
    apply sublist_remove_existing; [done|].
    eapply Forall_impl; [exact Hkept|]. cbn. intros n Hn.
    by inversion Hn.
  - eapply Forall_impl; [exact Hkept|]. cbn. intros n Hn.
    by inversion Hn.
Qed.


Lemma foreign_no_entry files root n f :
  n ∈ foreign d files root → f ∈ files → entry_of d f n = false.
Proof.
  unfold foreign. rewrite elem_of_filter_bool. intros [_ Hall] Hf.
  rewrite forallb_forall in Hall. apply list_elem_of_In in Hf.
  specialize (Hall f Hf). by apply negb_true_iff in Hall.
Qed.


Lemma child_of_set_root_children doc (rootNode : xml_node) children :
  child_of doc "gameList" = Some rootNode →
  child_of (set_root_children doc children) "gameList"
  = Some (XNode (node_name rootNode) (node_text rootNode) children).
Proof.
  unfold child_of. induction doc as [|n doc IH]; cbn; [done|].
  destruct (named "gameList" n) eqn:Hn; cbn.
  - intros [= <-]. unfold named in *. cbn. by rewrite Hn.
  - rewrite Hn. apply IH.
Qed.

Lemma set_root_children_twice doc children children' :
  set_root_children (set_root_children doc children) children'
  = set_root_children doc children'.
Proof.
  induction doc as [|n doc IH]; cbn; [done|].
  destruct (named "gameList" n) eqn:Hn; cbn.
  - unfold named in *. cbn. by rewrite Hn.
  - by rewrite Hn, IH.
Qed.

Lemma set_root_children_same doc (rootNode : xml_node) :
  child_of doc "gameList" = Some rootNode →
  set_root_children doc (node_children rootNode) = doc.
Proof.
  unfold child_of. induction doc as [|n doc IH]; cbn; [done|].
  destruct (named "gameList" n) eqn:Hn.
  - intros [= <-]. by destruct n.
  - intros Hf. by rewrite IH.
Qed.

(** The cases of a call: nothing is written, or the children of the
    [gameList] node are replaced. *)
Lemma updateGamelist_cases cfg save_ok h system xml xml' :
  updateGamelist cfg d save_ok h system xml = Some xml' →
  xml' = xml
  ∨ ∃ doc rootNode,
      save_ok = true
      ∧ DisableGamelistWrites cfg || IGNOREGAMELIST cfg = false
      ∧ (xml = Document doc ∨ (xml = NoFile ∧ doc = [XNode "gameList" EmptyString []]))
      ∧ child_of doc "gameList" = Some rootNode
      ∧ (∃ rootFolder, getRootFolder system = Some rootFolder
                       ∧ is_Some (h !! rootFolder)
                       ∧ files_of h rootFolder = Some (tree_files h system))
      ∧ xml' = Document (set_root_children doc
                 (update_files d (tree_files h system)
                    (node_children rootNode))).
Proof.
  unfold updateGamelist, tree_files.
  destruct (DisableGamelistWrites cfg || IGNOREGAMELIST cfg) eqn:Hcfg.
  { intros [= <-]. by left. }
  set (loaded := match xml with
                 | Document doc => Some doc
                 | Malformed => None
                 | NoFile => Some [XNode "gameList" EmptyString []]
                 end).
  destruct loaded as [doc|] eqn:Hloaded; [|intros [= <-]; by left].
  destruct (child_of doc "gameList") as [rootNode|] eqn:Hroot;
    [|intros [= <-]; by left].
  destruct (getRootFolder system) as [rootFolder|] eqn:Hsys;
    [|intros [= <-]; by left].
  cbn. destruct (h !! rootFolder) as [rootfd|] eqn:Hfd; [|done]. cbn.
  fold (files_of h rootFolder).
  destruct (files_of h rootFolder) as [files|] eqn:Hfiles; [|done]. cbn.
  destruct save_ok; intros [= <-]; [|by left].
  right. exists doc, rootNode. split_and!; try done.
  - subst loaded. destruct xml; simplify_eq; eauto.
  - exists rootFolder. split_and!; [done|by eexists|done].
Qed.

(** What a call leaves in the file. *)
Lemma updateGamelist_children cfg save_ok h system xml xml' :
  updateGamelist cfg d save_ok h system xml = Some xml' →
  xml' = xml
  ∨ gamelist_children xml'
    = update_files d (tree_files h system) (gamelist_children xml).
Proof.
  intros Hu. apply updateGamelist_cases in Hu
    as [->|(doc & rootNode & _ & _ & Hxml & Hroot & _ & ->)]; [by left|].
  right. cbn. rewrite (child_of_set_root_children _ _ _ Hroot). cbn.
  destruct Hxml as [->|[-> ->]]; cbn.
  - by rewrite Hroot.
  - vm_compute in Hroot. by simplify_eq.
Qed.



(** What a scan takes out is determined by the document, and so is what
    the rounds leave. *)
Lemma removes_first_unique file root kept kept' :
  removes_first d file root kept → removes_first d file root kept' →
  kept = kept'.
Proof.
  intros Hk Hk'.
  destruct Hk as [root Hnone|before fileNode after Hbefore Hf].
  - inversion Hk' as [|before' fileNode' after' Hbefore' Hf' Hroot]; [done|].
    subst. rewrite Forall_app, Forall_cons in Hnone.
    destruct Hnone as (_ & Hn & _). congruence.
  - remember (before ++ fileNode :: after) as root eqn:Hroot.
    destruct Hk' as [root Hnone|before' fileNode' after' Hbefore' Hf'].
    + subst. rewrite Forall_app, Forall_cons in Hnone.
      destruct Hnone as (_ & Hn & _). congruence.
    + revert before' Hbefore' Hroot.
      induction Hbefore as [|n before Hn _ IH]; intros before' Hbefore' Hroot.
      * destruct Hbefore' as [|n' before' Hn' _]; cbn in Hroot.
        -- by simplify_eq.
        -- simplify_eq. congruence.
      * destruct Hbefore' as [|n' before' Hn' Hrest]; cbn in Hroot.
        -- simplify_eq. congruence.
        -- injection Hroot as <- Hroot. cbn. f_equal. by apply IH.
Qed.

Lemma save_rounds_unique files root root1 root2 :
  save_rounds d files root root1 → save_rounds d files root root2 →
  root1 = root2.
Proof.
  intros H1. revert root2.
  induction H1 as [root|file files root kept root' Hk _ IH]; intros root2 H2.
  - by inversion H2.
  - inversion H2 as [|? ? ? kept2 ? Hk2 Hrest]; subst.
    rewrite <- (removes_first_unique _ _ _ _ Hk Hk2) in Hrest.
    by apply IH.
Qed.

End updateGamelist.

(** ** Two runs of updateGamelist *)

Section stable.
Context `{MetaDataModel}.
Variable d : fs.disk.
Implicit Types (f g : FileData) (n : xml_node) (root : list xml_node)
  (xml : xml_file) (h : gmap nat FileData).

Lemma same_file_spec (p q : fs.path) :
  same_file d p q = true
  ↔ p = q ∨ (is_Some (fs.file_id d p) ∧ is_Some (fs.file_id d q)
             ∧ fs.file_id d p = fs.file_id d q).
Proof.
  unfold same_file, fs.exists_, fs.equivalent.
  rewrite orb_true_iff, !andb_true_iff, !bool_decide_eq_true. tauto.
Qed.

Lemma same_file_sym (p q : fs.path) :
  same_file d p q = true → same_file d q p = true.
Proof.
  rewrite !same_file_spec. intros [->|(Hp & Hq & Hpq)]; [by left|].
  right. by split_and!.
Qed.

Lemma same_file_trans (p q r : fs.path) :
  same_file d p q = true → same_file d q r = true → same_file d p r = true.
Proof.
  rewrite !same_file_spec.
  intros [->|(Hp & Hq & Hpq)] [->|(Hq' & Hr & Hqr)]; eauto.
  right. split_and!; [done..|congruence].
Qed.

Lemma same_file_alias (p q r : fs.path) :
  same_file d q r = true → same_file d p q = same_file d p r.
Proof.
  intros Hqr. apply eq_true_iff_eq. split; intros Hp.
  - by eapply same_file_trans.
  - eapply same_file_trans; [done|]. by apply same_file_sym.
Qed.

Lemma tag_of_inj t1 t2 : tag_of t1 = tag_of t2 → t1 = t2.
Proof. by destruct t1, t2. Qed.

Lemma alias_refl f : alias d f f = true.
Proof.
  unfold alias. rewrite bool_decide_eq_true_2 by done.
  apply same_file_spec. by left.
Qed.

Lemma alias_sym f g : alias d f g = true → alias d g f = true.
Proof.
  unfold alias. rewrite !andb_true_iff, !bool_decide_eq_true.
  intros [-> Hs]. split; [done|]. by apply same_file_sym.
Qed.

Lemma entry_of_alias f g n :
  alias d f g = true → entry_of d f n = entry_of d g n.
Proof.
  unfold alias. rewrite andb_true_iff, bool_decide_eq_true.
  intros [Ht Hs]. unfold entry_of, is_entry_of. rewrite Ht.
  destruct (named (tag_of (getType g)) n); [|done]. cbn.
  destruct (child n "path") as [pathNode|]; [|done].
  by apply same_file_alias.
Qed.

Lemma entry_of_both f g n :
  entry_of d f n = true → entry_of d g n = true → alias d f g = true.
Proof.
  unfold entry_of, is_entry_of, alias, named.
  rewrite !andb_true_iff, !bool_decide_eq_true.
  intros [Hf Hpf] [Hg Hpg]. split.
  - apply tag_of_inj. congruence.
  - destruct (child n "path") as [pathNode|]; [|done].
    eapply same_file_trans; [|done]. by apply same_file_sym.
Qed.

(** The element written for an entry is an element of exactly the
    entries that are its aliases. *)
Lemma entry_of_own f g n :
  reparses f →
  n ∈ addFileDataNode [] f (tag_of (getType f)) →
  entry_of d g n = alias d f g.
Proof.
  intros Hre Hn.
  destruct (addFileDataNode_cases f (tag_of (getType f))) as [Hc|Hc];
    rewrite Hc in Hn; [by apply elem_of_nil in Hn|].
  apply list_elem_of_singleton in Hn as ->.
  unfold entry_of, is_entry_of, alias, child, child_of, named. cbn.
  rewrite (bool_decide_eq_true_2 ("path" = "path")) by done. cbn.
  rewrite Hre. f_equal. apply bool_decide_ext. split.
  - apply tag_of_inj.
  - by intros ->.
Qed.

Lemma addFileDataNode_length f :
  (List.length (addFileDataNode [] f (tag_of (getType f))) ≤ 1)%nat.
Proof.
  destruct (addFileDataNode_cases f (tag_of (getType f))) as [-> | ->];
    cbn; lia.
Qed.

Lemma reappended_snoc files f :
  reappended d (files ++ [f])
  = List.filter (λ n, negb (entry_of d f n)) (reappended d files)
    ++ addFileDataNode [] f (tag_of (getType f)).
Proof. unfold reappended. by rewrite foldl_snoc. Qed.

Lemma reappended_origin files n :
  n ∈ reappended d files →
  ∃ g, g ∈ files ∧ n ∈ addFileDataNode [] g (tag_of (getType g)).
Proof.
  induction files as [|f files IH] using rev_ind.
  { intros Hn. by apply elem_of_nil in Hn. }
  rewrite reappended_snoc, elem_of_app, elem_of_filter_bool.
  intros [[Hn _]|Hn].
  - destruct (IH Hn) as (g & Hg & Hgn). exists g. split; [|done].
    apply elem_of_app. by left.
  - exists f. split; [|done]. apply elem_of_app. right. by left.
Qed.

Lemma reappended_at_most_one files g :
  Forall reparses files → at_most_one d (reappended d files) g.
Proof.
  unfold at_most_one.
  induction files as [|f files IH] using rev_ind; intros Hre.
  { cbn. lia. }
  apply Forall_app in Hre as [Hre Hf]. inversion Hf as [|? ? Hfre _]; subst.
  rewrite reappended_snoc, List.filter_app, length_app.
  destruct (alias d f g) eqn:Halias.
  - rewrite (filter_all_false (entry_of d g)
               (List.filter _ (reappended d files))).
    + cbn. etrans; [apply filter_length_bound|].
      apply addFileDataNode_length.
    + intros x [_ Hx]%elem_of_filter_bool.
      rewrite <- (entry_of_alias f g) by done. by apply negb_true_iff.
  - rewrite (filter_all_false (entry_of d g) (addFileDataNode _ _ _)).
    + cbn. rewrite Nat.add_0_r.
      etrans; [apply filter_filter_length|]. by apply IH.
    + intros x Hx. by rewrite (entry_of_own f g x).
Qed.

Lemma foreign_nil root : foreign d [] root = root.
Proof.
  unfold foreign. induction root as [|n root IH]; cbn; [done|by f_equal].
Qed.

Lemma foreign_snoc files f root :
  foreign d (files ++ [f]) root
  = List.filter (λ n, negb (entry_of d f n)) (foreign d files root).
Proof.
  unfold foreign. induction root as [|n root IH]; cbn; [done|].
  rewrite forallb_app. cbn. rewrite andb_true_r.
  destruct (forallb _ files); cbn; [|done].
  destruct (entry_of d f n); cbn; by rewrite IH.
Qed.

Lemma foreign_app files root root' :
  foreign d files (root ++ root')
  = foreign d files root ++ foreign d files root'.
Proof. unfold foreign. apply List.filter_app. Qed.

Lemma foreign_idem files root :
  foreign d files (foreign d files root) = foreign d files root.
Proof. unfold foreign. apply filter_idem. Qed.

Lemma foreign_reappended files :
  Forall reparses files → foreign d files (reappended d files) = [].
Proof.
  intros Hre. unfold foreign. apply filter_all_false. intros n Hn.
  destruct (reappended_origin files n Hn) as (g & Hg & Hgn).
  destruct (forallb _ files) eqn:Hall; [|done].
  rewrite forallb_forall in Hall.
  specialize (Hall g (proj1 (list_elem_of_In _ _) Hg)).
  rewrite Forall_forall in Hre.
  rewrite (entry_of_own g g n), alias_refl in Hall by auto. done.
Qed.

Lemma foreign_entry_free files root f :
  f ∈ files → List.filter (entry_of d f) (foreign d files root) = [].
Proof.
  intros Hf. apply filter_all_false. intros n Hn.
  by eapply foreign_no_entry.
Qed.

(** The document after a run over a document that held at most one
    element of each entry: the elements of no entry, then the elements
    put at the end. *)
Lemma update_files_shape files root :
  Forall reparses files →
  Forall (at_most_one d root) files →
  update_files d files root = foreign d files root ++ reappended d files.
Proof.
  induction files as [|f files IH] using rev_ind; intros Hre Hone.
  { cbn. by rewrite foreign_nil, app_nil_r. }
  apply Forall_app in Hre as [Hre Hf]. inversion Hf as [|? ? Hfre _]; subst.
  apply Forall_app in Hone as [Hone Hf1].
  inversion Hf1 as [|? ? Hfone _]; subst.
  rewrite update_files_snoc, update_file_eq, IH by done.
  rewrite foreign_snoc, reappended_snoc, app_assoc. f_equal.
  rewrite <- List.filter_app. apply remove_existing_filter.
  change (is_entry_of d (tag_of (getType f)) (getPath f))
    with (entry_of d f).
  rewrite List.filter_app, length_app.
  destruct (List.filter (entry_of d f) (reappended d files))
    as [|n rest] eqn:Hre2.
  - cbn. rewrite Nat.add_0_r. etrans; [apply filter_filter_length|]. done.
  - rewrite <- Hre2.
    rewrite (filter_all_false (entry_of d f) (foreign d files root)).
    + cbn. by apply reappended_at_most_one.
    + intros x Hx.
      assert (n ∈ List.filter (entry_of d f) (reappended d files))
        as [Hn Hfn]%elem_of_filter_bool by (rewrite Hre2; by left).
      destruct (reappended_origin files n Hn) as (g & Hg & Hgn).
      rewrite Forall_forall in Hre.
      rewrite (entry_of_own g f n) in Hfn by auto.
      rewrite <- (entry_of_alias g f) by done.
      by eapply foreign_no_entry.
Qed.

(** A run over the document a run left changes nothing. *)
Lemma update_files_stable files root :
  Forall reparses files →
  Forall (at_most_one d root) files →
  update_files d files (update_files d files root)
  = update_files d files root.
Proof.
  intros Hre Hone. rewrite (update_files_shape files root) by done.
  rewrite update_files_shape; [|done|].
  - by rewrite foreign_app, foreign_idem, foreign_reappended, app_nil_r.
  - apply Forall_forall. intros f Hf. unfold at_most_one.
    rewrite List.filter_app, length_app, foreign_entry_free by done.
    by apply reappended_at_most_one.
Qed.

End stable.

Section twice.
Context `{MetaDataModel}.
Variable d : fs.disk.
Implicit Types (xml : xml_file) (h : gmap nat FileData).

Lemma getFilesRecursive_valid h fuel (node : nat) :
  closed h →
  Forall (λ l : nat, is_Some (h !! l)) (getFilesRecursive fuel h node).
Proof.
  intros Hcl. revert node. induction fuel as [|fuel IH]; intros node; cbn.
  { constructor. }
  destruct (h !! node) as [fd|] eqn:Hnode; [|constructor].
  assert (Forall (λ c : nat, is_Some (h !! c)) (getChildren fd)) as Hkids.
  { apply Forall_forall. intros c Hc. by eapply Hcl. }
  induction Hkids as [|c cs Hc _ IHcs]; cbn; [constructor|].
  constructor; [done|]. apply Forall_app. split; [apply IH|apply IHcs].
Qed.

Lemma files_of_total h (rootFolder : nat) :
  closed h → is_Some (files_of h rootFolder).
Proof.
  intros Hcl. unfold files_of. apply mapM_is_Some.
  by apply getFilesRecursive_valid.
Qed.

Lemma updateGamelist_total cfg save_ok h system xml :
  closed h → valid_root h system →
  is_Some (updateGamelist cfg d save_ok h system xml).
Proof.
  intros Hcl Hroot. unfold updateGamelist, valid_root in *.
  destruct (_ || _); [by eexists|].
  destruct (match xml with
            | Document doc => Some doc
            | Malformed => None
            | NoFile => Some [XNode "gameList" EmptyString []]
            end) as [doc|]; [|by eexists].
  destruct (child_of doc "gameList"); [|by eexists].
  destruct (getRootFolder system) as [rootFolder|]; [|by eexists].
  cbn in Hroot. destruct Hroot as [rootfd ->]. cbn.
  fold (files_of h rootFolder).
  destruct (files_of_total h rootFolder Hcl) as [files ->]. by eexists.
Qed.

Lemma updateGamelist_writes cfg h system doc (rootNode : xml_node)
    (rootFolder : nat) files :
  DisableGamelistWrites cfg || IGNOREGAMELIST cfg = false →
  child_of doc "gameList" = Some rootNode →
  getRootFolder system = Some rootFolder →
  is_Some (h !! rootFolder) →
  files_of h rootFolder = Some files →
  updateGamelist cfg d true h system (Document doc)
  = Some (Document (set_root_children doc
            (update_files d files (node_children rootNode)))).
Proof.
  intros Hcfg Hroot Hsys [rootfd Hfd] Hfiles. unfold updateGamelist.
  rewrite Hcfg, Hroot, Hsys. cbn. rewrite Hfd. cbn.
  fold (files_of h rootFolder). by rewrite Hfiles.
Qed.


(** C9, as amended. When the document before the first run holds at most
    one element of each entry of the tree, a second run with the tree
    unchanged leaves the document the first run left. (The tree's pointers
    are valid and every path reads back from its slash-separated form.) *)
Theorem updateGamelist_twice cfg save_ok h system xml :
  closed h →
  valid_root h system →
  Forall reparses (tree_files h system) →
  Forall (at_most_one d (gamelist_children xml)) (tree_files h system) →
  stable_at cfg d save_ok h system xml.
Proof.
  intros Hcl Hvalid Hre Hone.
  destruct (updateGamelist_total cfg save_ok h system xml Hcl Hvalid)
    as [xml1 Hfirst].
  exists xml1. split; [done|].
  destruct (updateGamelist_cases d _ _ _ _ _ _ Hfirst)
    as [->|(doc & rootNode & -> & Hcfg & Hxml & Hroot
            & (rootFolder & Hsys & Hfd & Hfiles) & ->)]; [done|].
  assert (gamelist_children xml = node_children rootNode) as Hkids.
  { destruct Hxml as [->|[-> ->]]; cbn.
    - by rewrite Hroot.
    - vm_compute in Hroot. by simplify_eq. }
  rewrite Hkids in Hone.
  erewrite updateGamelist_writes;
    [|done|by apply child_of_set_root_children|done..].
  cbn. by rewrite update_files_stable, set_root_children_twice.
Qed.

End twice.

(** ** The properties on the sample data *)

Section samples.
Import sample.
#[local] Existing Instance sample.model.

Ltac by_computation := vm_compute; reflexivity.
Ltac by_decision := apply (bool_decide_unpack _); vm_compute; exact I.
Ltac with_hypotheses := repeat (split; [first [assumption|reflexivity]|]).

(** C2. The path [link.nes] is a link to [real.nes], hence a contained
    game path. The first call looks for a child named [real.nes], finds
    none and adds an entry stored under the path as given, named
    [link.nes]; the second call looks for [real.nes] again, finds none and
    adds a second entry with the same path: it returns another entry than
    the first call, changes the tree, and leaves two siblings of one
    name. *)
Theorem findOrCreateFile_symlink_twice :
  closed root_only ∧ unique_names root_only
  ∧ relative_path pi_disk root_only system link_nes
    = Some (["real.nes"], true)
  ∧ findOrCreateFile pi_disk root_only system link_nes GAME
    = Some (with_link, Some 1)
  ∧ findOrCreateFile pi_disk with_link system link_nes GAME
    = Some (with_link_twice, Some 2)
  ∧ getChildren <$> with_link_twice !! 0 = Some [1; 2]
  ∧ getPath <$> with_link_twice !! 1 = Some link_nes
  ∧ getPath <$> with_link_twice !! 2 = Some link_nes
  ∧ ¬ unique_names with_link_twice
  ∧ ¬ idempotent_at pi_disk root_only system link_nes GAME.
Proof.
  split; [by_decision|]. split; [by_decision|].
  split; [by_computation|].
  split; [by_computation|]. split; [by_computation|].
  split; [by_computation|]. split; [by_computation|].
  split; [by_computation|]. split; [by_decision|].
  intros (h1 & file & Hfirst & Hsecond).
  vm_compute in Hfirst. injection Hfirst as <- <-.
  vm_compute in Hsecond. by injection Hsecond.
Qed.

(** The root folder holds the game [a.nes] and no folder at all, so no
    folder entry matches the element [a.nes]; a request for a folder at
    that path returns the game. *)
Lemma findOrCreateFile_folder_returns_game :
  getRootFolder system = Some 0
  ∧ relative_path more.disk more.two_games system more.a_nes
    = Some (["a.nes"], true)
  ∧ no_folder_along more.two_games 0 ["a.nes"]
  ∧ findOrCreateFile more.disk more.two_games system more.a_nes FOLDER
    = Some (more.two_games, Some 1)
  ∧ getType <$> more.two_games !! 1 = Some GAME
  ∧ findOrCreateFile more.disk more.two_games system more.a_nes FOLDER
    ≠ Some (more.two_games, None).
Proof.
  assert (findOrCreateFile more.disk more.two_games system more.a_nes FOLDER
          = Some (more.two_games, Some 1)) as Hf by by_computation.
  split; [done|]. split; [by_computation|]. split.
  { apply (no_folder_here more.two_games 0 (root_entry [1; 2]) "a.nes" []);
      [by_computation|].
    intros c Hc (fd & Hfd & Hty & _). cbn in Hc.
    apply elem_of_cons in Hc as [->|Hc].
    { vm_compute in Hfd. injection Hfd as <-. discriminate Hty. }
    apply elem_of_cons in Hc as [->|Hc].
    { vm_compute in Hfd. injection Hfd as <-. discriminate Hty. }
    by apply elem_of_nil in Hc. }
  split; [exact Hf|]. split; [by_computation|].
  rewrite Hf. intros Heq. by injection Heq.
Qed.

Lemma findOrCreateFile_folder_missing_witness :
  getRootFolder system = Some 0
  ∧ relative_path pi_disk root_only system foo = Some (["foo"], true)
  ∧ no_match_along root_only 0 ["foo"]
  ∧ findOrCreateFile pi_disk root_only system foo FOLDER
    = Some (root_only, None).
Proof.
  assert (relative_path pi_disk root_only system foo = Some (["foo"], true))
    as Hrel by by_computation.
  assert (no_match_along root_only 0 ["foo"]) as Hmiss.
  { apply (no_match_here root_only 0 (root_entry []) "foo" []);
      by_computation. }
  with_hypotheses.
  exact (findOrCreateFile_folder_missing pi_disk root_only system foo 0
           ["foo"] eq_refl Hrel Hmiss).
Defined.


Lemma load_file_node_metadata_witness :
  let path := fs.path_of_string (text_get (child bar_element "path")) in
  fs.exists_ pi_disk path = true
  ∧ findOrCreateFile pi_disk root_only system path GAME
    = Some (with_bar, Some 2)
  ∧ with_bar !! 2 = Some bar_entry
  ∧ ∃ h2 fd',
      load_file_node pi_disk system GAME root_only bar_element = Some h2
      ∧ h2 !! 2 = Some fd'
      ∧ md_get (metadata fd') "name" = "bar"
      ∧ md_get (metadata fd') "desc" = "A game".
Proof.
  intros path.
  assert (fs.exists_ pi_disk path = true) as Hex by by_computation.
  assert (findOrCreateFile pi_disk root_only system path GAME
          = Some (with_bar, Some 2)) as Hf by by_computation.
  assert (with_bar !! 2 = Some bar_entry) as Hfd by by_computation.
  with_hypotheses.
  destruct (load_file_node_metadata pi_disk system GAME root_only
              bar_element with_bar 2 bar_entry Hex Hf Hfd)
    as (h2 & fd' & Hload & Hlook & _ & _ & _ & _ & _ & Hkeys & Hname & _).
  exists h2, fd'. split; [exact Hload|]. split; [exact Hlook|]. split.
  - rewrite Hname. by_computation.
  - unfold md_get. rewrite Hkeys by done. by_computation.
Defined.

Lemma load_file_node_stale_witness :
  fs.exists_ pi_disk
    (fs.path_of_string (text_get (child gone_element "path"))) = false
  ∧ load_file_node pi_disk system GAME root_only gone_element
    = Some root_only
  ∧ load_file_nodes pi_disk system GAME root_only [gone_element; bar_element]
    = load_file_nodes pi_disk system GAME root_only [bar_element].
Proof.
  assert (fs.exists_ pi_disk
            (fs.path_of_string (text_get (child gone_element "path")))
          = false) as Hex by by_computation.
  destruct (load_file_node_stale pi_disk system GAME root_only gone_element
              Hex) as [Hskip Hall].
  with_hypotheses. exact (Hall root_only [] [bar_element]).
Defined.

(** An entry with nothing but its default name writes no element; with a
    name of its own it writes its path and the name. *)
Example addFileDataNode_default_name :
  addFileDataNode [gone_element] real_default "game" = [gone_element].
Proof. by_computation. Qed.

Example addFileDataNode_custom_name :
  addFileDataNode [gone_element] real_entry "game"
  = [gone_element; real_custom].
Proof. by_computation. Qed.


(** The old document holds two elements of the one game: each run removes
    the first it meets and adds the current one, so the second run replaces
    the stale element the first run left. *)
Lemma updateGamelist_duplicate_not_stable :
  closed one_game ∧ valid_root one_game system
  ∧ Forall reparses (tree_files one_game system)
  ∧ updateGamelist writes_enabled pi_disk true one_game system
      (gamelist [real_old; real_older])
    = Some (gamelist [real_older; real_custom])
  ∧ updateGamelist writes_enabled pi_disk true one_game system
      (gamelist [real_older; real_custom])
    = Some (gamelist [real_custom; real_custom])
  ∧ ¬ stable_at writes_enabled pi_disk true one_game system
        (gamelist [real_old; real_older]).
Proof.
  split; [by_decision|]. split; [by_decision|]. split; [by_decision|].
  split; [by_computation|]. split; [by_computation|].
  intros (xml1 & Hfirst & Hsecond).
  vm_compute in Hfirst. injection Hfirst as <-.
  vm_compute in Hsecond. discriminate Hsecond.
Qed.

Lemma updateGamelist_twice_witness :
  closed one_game ∧ valid_root one_game system
  ∧ Forall reparses (tree_files one_game system)
  ∧ Forall (at_most_one pi_disk
              (gamelist_children (gamelist [gone_element; real_old])))
           (tree_files one_game system)
  ∧ stable_at writes_enabled pi_disk true one_game system
      (gamelist [gone_element; real_old]).
Proof.
  assert (closed one_game) as Hcl by by_decision.
  assert (valid_root one_game system) as Hvalid by by_decision.
  assert (Forall reparses (tree_files one_game system)) as Hre
    by by_decision.
  assert (Forall (at_most_one pi_disk
                    (gamelist_children (gamelist [gone_element; real_old])))
                 (tree_files one_game system)) as Hone by by_decision.
  with_hypotheses.
  exact (updateGamelist_twice pi_disk writes_enabled true one_game system
           (gamelist [gone_element; real_old]) Hcl Hvalid Hre Hone).
Defined.

End samples.

(** * Further properties *)

(** ** removeCommonPath on any pair of paths *)

Lemma find_divergence_relative_to (p r : iterator) (derefs : list iterator) :
  let dv := find_divergence p r derefs in
  (r `prefix_of` p →
   div_relative_to dv = [] ∧ div_path dv = drop (List.length r) p)
  ∧ (¬ r `prefix_of` p → div_relative_to dv ≠ []).
Proof.
  revert r derefs. induction p as [|x p IH]; intros [|y r] derefs; cbn.
  - split; [done|]. intros Hn. destruct Hn. done.
  - unfold divergence_cond. cbn. rewrite andb_false_r. cbn.
    split; [|done]. intros Hpre. by apply prefix_nil_not in Hpre.
  - unfold divergence_cond. cbn. rewrite andb_false_r. cbn.
    split; [done|]. intros Hn. destruct Hn. apply prefix_nil.
  - unfold divergence_cond. cbn. rewrite !andb_true_r.
    case_bool_decide as Hxy.
    + subst y. destruct (IH r (derefs ++ [x :: p; x :: r])) as [Hyes Hno].
      split.
      * intros Hpre. apply Hyes. by eapply prefix_cons_inv_2.
      * intros Hn. apply Hno. intros Hpre. apply Hn. by apply prefix_cons.
    + cbn. split; [|done]. intros Hpre.
      by apply prefix_cons_inv_1 in Hpre.
Qed.

Lemma collect_rest_not_dot (itr_path : iterator) :
  collect_rest [] itr_path = List.filter not_dot itr_path.
Proof. by rewrite collect_rest_filter. Qed.

(** The result of [removeCommonPath] in terms of the canonical forms. *)
Lemma removeCommonPath_eq (d : fs.disk) (path relativeTo p r : fs.path) :
  fs.canonical d path = Some p →
  fs.canonical d relativeTo = Some r →
  removeCommonPath d path relativeTo
  = Some (if decide (fs.root_path p = fs.root_path r ∧ r `prefix_of` p)
          then (List.filter not_dot (drop (List.length r) p), true)
          else (p, false)).
Proof.
  intros Hp Hr. unfold removeCommonPath. rewrite Hp, Hr. cbn.
  destruct (find_divergence_relative_to p r []) as [Hyes Hno].
  case_decide as Hroot.
  - rewrite decide_False by tauto. done.
  - destruct (decide (r `prefix_of` p)) as [Hpre|Hpre].
    + destruct (Hyes Hpre) as [-> ->]. cbn.
      rewrite decide_True by done. by rewrite collect_rest_not_dot.
    + specialize (Hno Hpre).
      destruct (div_relative_to (find_divergence p r [])); [done|]. cbn.
      rewrite decide_False by tauto. done.
Qed.

Lemma filter_not_dot (l : list string) : fs.dot ∉ List.filter not_dot l.
Proof.
  rewrite elem_of_filter_bool. unfold not_dot. intros [_ Hd].
  by apply bool_decide_eq_true_1 in Hd.
Qed.

(** X1. Whenever both paths can be resolved, [removeCommonPath] returns;
    it reports the path as contained exactly when the canonical forms have
    the same root path and the elements of the canonical root are a prefix
    of those of the canonical path. Then the result is what follows the
    prefix, without its ["."] elements; otherwise the result is the
    canonical path itself. *)
Theorem removeCommonPath_contains_iff_prefix (d : fs.disk)
    (path relativeTo p r : fs.path) :
  fs.canonical d path = Some p →
  fs.canonical d relativeTo = Some r →
  ∃ result contains,
    removeCommonPath d path relativeTo = Some (result, contains)
    ∧ (contains = true
       ↔ fs.root_path p = fs.root_path r ∧ r `prefix_of` p)
    ∧ (contains = true →
       result = List.filter not_dot (drop (List.length r) p)
       ∧ fs.dot ∉ result)
    ∧ (contains = false → result = p).
Proof.
  intros Hp Hr. rewrite (removeCommonPath_eq d path relativeTo p r Hp Hr).
  case_decide as Hin; eexists _, _; (split; [done|]).
  - split_and!; [done| |done]. intros _. split; [done|].
    apply filter_not_dot.
  - split_and!; [|done|done]. split; [done|tauto].
Qed.

(** ** findOrCreateFile: what it returns *)

Section findOrCreateFile_result.
Context `{MetaDataModel}.
Implicit Types h : gmap nat FileData.

Lemma findOrCreateFile_eq (d : fs.disk) h system path type (root : nat)
    rootfd (p r : fs.path) :
  getRootFolder system = Some root →
  h !! root = Some rootfd →
  fs.canonical d path = Some p →
  fs.canonical d (getPath rootfd) = Some r →
  findOrCreateFile d h system path type
  = if decide (fs.root_path p = fs.root_path r ∧ r `prefix_of` p)
    then descend type path h root
           (List.filter not_dot (drop (List.length r) p))
    else Some (h, None).
Proof.
  intros Hroot Hfd Hp Hr. unfold findOrCreateFile.
  rewrite Hroot. cbn. rewrite Hfd. cbn.
  rewrite (removeCommonPath_eq d path (getPath rootfd) p r Hp Hr). cbn.
  by case_decide.
Qed.

(** X2. A path whose canonical form has another root path than the
    canonical form of the root folder's path, or does not extend it, is
    refused: the call returns NULL and the tree
    is as before, for games and folders alike. *)
Theorem findOrCreateFile_outside (d : fs.disk) h system path type
    (root : nat) rootfd (p r : fs.path) :
  getRootFolder system = Some root →
  h !! root = Some rootfd →
  fs.canonical d path = Some p →
  fs.canonical d (getPath rootfd) = Some r →
  ¬ (fs.root_path p = fs.root_path r ∧ r `prefix_of` p) →
  findOrCreateFile d h system path type = Some (h, None).
Proof.
  intros Hroot Hfd Hp Hr Hout.
  rewrite (findOrCreateFile_eq d h system path type root rootfd p r)
    by done.
  by rewrite decide_False.
Qed.

(** X3. The path of the root folder itself (any path with the canonical
    form of the root) has an empty relative path: the call returns NULL,
    creates nothing and leaves the tree as before. *)
Theorem findOrCreateFile_root_itself (d : fs.disk) h system path type
    (root : nat) rootfd (r : fs.path) :
  getRootFolder system = Some root →
  h !! root = Some rootfd →
  fs.canonical d path = Some r →
  fs.canonical d (getPath rootfd) = Some r →
  findOrCreateFile d h system path type = Some (h, None).
Proof.
  intros Hroot Hfd Hp Hr.
  rewrite (findOrCreateFile_eq d h system path type root rootfd r r)
    by done.
  case_decide; [|done]. by rewrite drop_all.
Qed.

Lemma descend_resolves type path h (node : nat) it (target : nat) :
  resolves h node it target →
  descend type path h node it = Some (h, Some target).
Proof.
  induction 1 as [node fd name target Hnode Hfind
                 |node fd name child rest target Hrest Hnode Hfind _ IH];
    cbn; rewrite Hnode; cbn; rewrite Hfind; cbn; [done|].
  by destruct rest.
Qed.

(** X4. When every element of the relative path has a child of its name
    under the node reached before it, the call returns the child found for
    the last element and leaves the tree as before, whatever the kind
    asked for. *)
Theorem findOrCreateFile_existing (d : fs.disk) h system path type
    (root target : nat) relative :
  getRootFolder system = Some root →
  relative_path d h system path = Some (relative, true) →
  resolves h root relative target →
  findOrCreateFile d h system path type = Some (h, Some target).
Proof.
  intros Hroot Hrel Hres.
  destruct (findOrCreateFile_descend d h system path type relative Hrel)
    as (root' & Hroot' & _ & ->).
  simplify_eq. by apply descend_resolves.
Qed.

Lemma descend_found_or_made type path h (node : nat) it :
  type ≠ FOLDER → closed h → is_Some (h !! node) → it ≠ [] →
  ∃ h' (file : nat),
    descend type path h node it = Some (h', Some file)
    ∧ ((h' = h ∧ resolves h node it file)
       ∨ (h !! file = None
          ∧ ∃ parent : nat,
              h' !! file
              = Some (mkFileData type path
                        (md_set ∅ "name" (getCleanFileName path))
                        [] (Some parent)))).
Proof.
  intros Hty. revert h node.
  induction it as [|name rest IH]; intros h node Hcl [nd Hnode] Hit; [done|].
  destruct (find_child_total h name (getChildren nd)) as [found Hfind].
  { intros c Hc. by eapply Hcl. }
  cbn. rewrite Hnode. cbn. rewrite Hfind. cbn.
  destruct rest as [|name' rest]; cbn [at_end].
  - destruct found as [child|].
    + exists h, child. split; [done|]. left. split; [done|].
      by eapply resolves_last.
    + rewrite decide_False by done.
      destruct (new_FileData h type path) as [h1 file] eqn:Hnew.
      destruct (addChild_new _ _ _ _ _ _ _ Hnode Hnew)
        as (h2 & Hadd & Hfresh & Hfile & Htree & Hother).
      rewrite Hadd. cbn. exists h2, file. split; [done|]. right.
      split; [done|]. by exists node.
  - destruct found as [child|].
    + destruct (find_child_Some _ _ _ _ Hfind) as (_ & cfd & Hchild & _).
      destruct (IH h child Hcl (ex_intro _ cfd Hchild)) as
        (h' & file & Hd & Hcase); [done|].
      exists h', file. split; [done|].
      destruct Hcase as [[-> Hres]|Hmade]; [left|by right].
      split; [done|]. by eapply resolves_step.
    + rewrite decide_False by done.
      destruct (new_FileData h FOLDER (fs.stem (getPath nd) // [name]))
        as [h1 folder] eqn:Hnew.
      destruct (addChild_new _ _ _ _ _ _ _ Hnode Hnew)
        as (h2 & Hadd & Hfresh & Hfile & Htree & Hother).
      rewrite Hadd. cbn.
      pose proof (created_closed h h2 node folder nd _ Hcl Hnode Hfile
                    eq_refl Htree Hother) as Hcl2.
      destruct (IH h2 folder Hcl2 (ex_intro _ _ Hfile)) as
        (h' & file & Hd & Hcase); [done|].
      exists h', file. split; [done|]. right.
      destruct Hcase as [[-> Hres]|[Hnone Hmade]].
      * exfalso. inversion Hres as [? fd ? ? Hf Hfc|? fd ? ? ? ? ? Hf Hfc];
          subst; rewrite Hfile in Hf; by simplify_eq.
      * split; [|done].
        destruct (h !! file) as [x|] eqn:Hx; [|done].
        pose proof (created_grows _ _ _ _ _ _ Hnode Hfresh Hfile Htree Hother)
          as Hg.
        destruct (Hg file x Hx) as (x' & Hx' & _). congruence.
Qed.

(** X5. On a tree whose pointers are valid, a call for a contained game
    path other than the root returns an entry, never NULL: either the
    walk found it (every element had a child of its name) and the tree is
    as before, or it is an entry that was not in the tree, of kind GAME,
    with the path as given and no children. *)
Theorem findOrCreateFile_game_found_or_made (d : fs.disk) h system path
    relative :
  closed h →
  relative_path d h system path = Some (relative, true) →
  relative ≠ [] →
  ∃ h' (root file : nat),
    getRootFolder system = Some root
    ∧ findOrCreateFile d h system path GAME = Some (h', Some file)
    ∧ ((h' = h ∧ resolves h root relative file)
       ∨ (h !! file = None
          ∧ ∃ fd, h' !! file = Some fd
              ∧ getType fd = GAME ∧ getPath fd = path
              ∧ getChildren fd = [])).
Proof.
  intros Hcl Hrel Hne.
  destruct (findOrCreateFile_descend d h system path GAME relative Hrel)
    as (root & Hroot & Hvalid & ->).
  destruct (descend_found_or_made GAME path h root relative)
    as (h' & file & Hd & Hcase); try done.
  exists h', root, file. split; [done|]. split; [done|].
  destruct Hcase as [?|(Hnone & parent & Hfile)]; [by left|right].
  split; [done|]. eexists. by split.
Qed.

(** X25. On a tree whose pointers are valid, a call for a contained game
    path other than the root, whose last element as given is the last
    element of its relative path (the name under which the walk looks the
    entry up), returns an entry, and a second call returns that entry and
    changes nothing. *)
Theorem findOrCreateFile_idempotent (d : fs.disk) h system path relative :
  closed h →
  relative_path d h system path = Some (relative, true) →
  relative ≠ [] →
  fs.filename path = fs.filename relative →
  idempotent_at d h system path GAME.
Proof.
  intros Hcl Hrel Hne Hname.
  destruct (findOrCreateFile_descend d h system path GAME relative Hrel)
    as (root & Hroot & Hvalid & Hfirst).
  destruct (descend_found_or_made GAME path h root relative)
    as (h1 & file & Hd & _); try done.
  exists h1, file. split; [by rewrite Hfirst|].
  pose proof (descend_grows _ _ _ _ _ _ _ Hd) as Hg.
  assert (relative_path d h1 system path = Some (relative, true)) as Hrel1.
  { rewrite (relative_path_grows d h h1) by (by rewrite ?Hrel). done. }
  destruct (findOrCreateFile_descend d h1 system path GAME relative Hrel1)
    as (root1 & Hroot1 & _ & ->).
  simplify_eq. eapply descend_again; [|done].
  intros name Hlast. rewrite Hname. unfold fs.filename. by rewrite Hlast.
Qed.

Lemma findOrCreateFile_grows (d : fs.disk) h system path type h' r :
  findOrCreateFile d h system path type = Some (h', r) → grows h h'.
Proof.
  unfold findOrCreateFile. intros Hf.
  destruct (getRootFolder system) as [root|]; [|done]. cbn in Hf.
  destruct (h !! root) as [rootfd|]; [|done]. cbn in Hf.
  destruct (removeCommonPath d path (getPath rootfd)) as [[rel c]|]; [|done].
  cbn in Hf. destruct c; cbn in Hf.
  - by eapply descend_grows.
  - simplify_eq. apply grows_refl.
Qed.

(** X6. Whatever the call does, the entries of the tree stay: each keeps
    its kind, path, metadata and parent, and the children it had come
    first, in their order, among its children. *)
Theorem findOrCreateFile_keeps_entries (d : fs.disk) h system path type
    h' r (l : nat) fd :
  findOrCreateFile d h system path type = Some (h', r) →
  h !! l = Some fd →
  ∃ fd', h' !! l = Some fd'
    ∧ getType fd' = getType fd
    ∧ getPath fd' = getPath fd
    ∧ metadata fd' = metadata fd
    ∧ getParent fd' = getParent fd
    ∧ getChildren fd `prefix_of` getChildren fd'.
Proof. intros Hf. by apply (findOrCreateFile_grows d h system path type h' r). Qed.

End findOrCreateFile_result.

(** ** findOrCreateFile: what it keeps *)

Section findOrCreateFile_invariants.
Context `{MetaDataModel}.
Implicit Types h : gmap nat FileData.

(** Opens one round of the walk in hypothesis [Hd]. *)
Ltac open_round Hd nd Hnode found Hfind :=
  cbn in Hd;
  lazymatch type of Hd with
  | context [?h !! ?node] =>
      destruct (h !! node) as [nd|] eqn:Hnode; [|done]
  end;
  cbn in Hd;
  lazymatch type of Hd with
  | context [find_child ?h ?name ?cs] =>
      destruct (find_child h name cs) as [found|] eqn:Hfind; [|done]
  end;
  cbn in Hd.

(** Opens the creation of an entry in hypothesis [Hd]. *)
Ltac open_create Hd Hnode h1 file h2 Hadd Hfresh Hfile Htree Hother :=
  lazymatch type of Hd with
  | context [new_FileData ?h ?t ?p] =>
      let Hnew := fresh "Hnew" in
      destruct (new_FileData h t p) as [h1 file] eqn:Hnew;
      destruct (addChild_new _ _ _ _ _ _ _ Hnode Hnew)
        as (h2 & Hadd & Hfresh & Hfile & Htree & Hother);
      rewrite Hadd in Hd; cbn in Hd
  end.

Lemma parent_linked_closed h : parent_linked h → closed h.
Proof.
  intros Hpl l fd c Hl Hc. destruct (Hpl l fd c Hl Hc) as (cfd & -> & _).
  by eexists.
Qed.

Lemma created_parent_linked h h2 (treeNode file : nat) node fd :
  parent_linked h →
  h !! treeNode = Some node →
  h !! file = None →
  h2 !! file = Some fd → getChildren fd = [] →
  getParent fd = Some treeNode →
  h2 !! treeNode = Some (set_children node (getChildren node ++ [file])) →
  (∀ l, l ≠ file → l ≠ treeNode → h2 !! l = h !! l) →
  parent_linked h2.
Proof.
  intros Hpl Hnode Hfresh Hfile Hnil Hpar Htree Hother.
  assert (∀ (l c : nat) cfd, h !! c = Some cfd → getParent cfd = Some l →
            ∃ cfd', h2 !! c = Some cfd' ∧ getParent cfd' = Some l) as Hkeep.
  { intros l c cfd Hc Hp.
    destruct (decide (c = treeNode)) as [->|Hct].
    - simplify_eq. by eexists.
    - assert (c ≠ file) by congruence. exists cfd. by rewrite Hother. }
  intros l fd' c Hl Hc.
  destruct (decide (l = file)) as [->|Hlf].
  { simplify_eq. rewrite Hnil in Hc. by apply elem_of_nil in Hc. }
  destruct (decide (l = treeNode)) as [->|Hlt].
  - simplify_eq. cbn in Hc. apply elem_of_app in Hc as [Hc|Hc].
    + destruct (Hpl treeNode node c Hnode Hc) as (cfd & Hcfd & Hp). eauto.
    + apply list_elem_of_singleton in Hc as ->. eauto.
  - rewrite Hother in Hl by done.
    destruct (Hpl l fd' c Hl Hc) as (cfd & Hcfd & Hp). eauto.
Qed.

Lemma descend_parent_linked type path h (node : nat) it h' r :
  parent_linked h →
  descend type path h node it = Some (h', r) →
  parent_linked h'.
Proof.
  revert h node. induction it as [|name rest IH]; intros h node Hpl Hd.
  { cbn in Hd. by simplify_eq. }
  open_round Hd nd Hnode found Hfind.
  destruct (at_end rest).
  - destruct found as [child|]; [by simplify_eq|].
    case_decide; [by simplify_eq|].
    open_create Hd Hnode h1 file h2 Hadd Hfresh Hfile Htree Hother.
    simplify_eq.
    exact (created_parent_linked h h' node file nd _ Hpl Hnode Hfresh Hfile
             eq_refl eq_refl Htree Hother).
  - destruct found as [child|]; [by eapply IH|].
    case_decide; [by simplify_eq|].
    open_create Hd Hnode h1 file h2 Hadd Hfresh Hfile Htree Hother.
    eapply IH; [|done].
    exact (created_parent_linked h h2 node file nd _ Hpl Hnode Hfresh Hfile
             eq_refl eq_refl Htree Hother).
Qed.

Lemma findOrCreateFile_linked (d : fs.disk) h system path type h' r :
  parent_linked h →
  findOrCreateFile d h system path type = Some (h', r) →
  parent_linked h'.
Proof.
  unfold findOrCreateFile. intros Hpl Hf.
  destruct (getRootFolder system) as [root|]; [|done]. cbn in Hf.
  destruct (h !! root) as [rootfd|]; [|done]. cbn in Hf.
  destruct (removeCommonPath d path (getPath rootfd)) as [[rel c]|]; [|done].
  cbn in Hf. destruct c; cbn in Hf; [|by simplify_eq].
  by eapply descend_parent_linked.
Qed.

(** X7. The call keeps the tree linked: if before the call every child
    of an entry is in the tree and names that entry as its parent, the
    same holds after it, for the entries it made as well. *)
Theorem findOrCreateFile_parent_linked (d : fs.disk) h system path type
    h' r (l c : nat) fd :
  parent_linked h →
  findOrCreateFile d h system path type = Some (h', r) →
  h' !! l = Some fd → c ∈ getChildren fd →
  ∃ cfd, h' !! c = Some cfd ∧ getParent cfd = Some l.
Proof.
  intros Hpl Hf. by apply (findOrCreateFile_linked d h system path type h' r).
Qed.

Lemma find_child_None_names h name (children : list nat) :
  find_child h name children = Some None →
  Some [name]
  ∉ (λ c : nat, (λ cfd, fs.filename (getPath cfd)) <$> h !! c) <$> children.
Proof.
  induction children as [|c cs IH]; cbn; [intros _; apply not_elem_of_nil|].
  destruct (h !! c) as [cfd|] eqn:Hc; [|done]. cbn.
  case_decide as Hn; [done|]. intros Hf.
  apply not_elem_of_cons. split; [|by apply IH]. congruence.
Qed.

Lemma created_names h h2 (treeNode file : nat) node (children : list nat) :
  h !! treeNode = Some node →
  h !! file = None →
  h2 !! treeNode = Some (set_children node (getChildren node ++ [file])) →
  (∀ l, l ≠ file → l ≠ treeNode → h2 !! l = h !! l) →
  (∀ c, c ∈ children → is_Some (h !! c)) →
  (λ c : nat, (λ cfd, fs.filename (getPath cfd)) <$> h2 !! c) <$> children
  = (λ c : nat, (λ cfd, fs.filename (getPath cfd)) <$> h !! c) <$> children.
Proof.
  intros Hnode Hfresh Htree Hother Hvalid.
  apply list_fmap_ext. intros i c Hic.
  destruct (Hvalid c) as [cfd Hc]; [by eapply list_elem_of_lookup_2|].
  destruct (decide (c = treeNode)) as [->|Hct].
  - rewrite Htree, Hnode. done.
  - rewrite Hother; [done|congruence|done].
Qed.

Lemma created_unique_names h h2 (treeNode file : nat) node fd name :
  closed h → unique_names h →
  h !! treeNode = Some node →
  h !! file = None →
  h2 !! file = Some fd → getChildren fd = [] →
  fs.filename (getPath fd) = [name] →
  find_child h name (getChildren node) = Some None →
  h2 !! treeNode = Some (set_children node (getChildren node ++ [file])) →
  (∀ l, l ≠ file → l ≠ treeNode → h2 !! l = h !! l) →
  unique_names h2.
Proof.
  intros Hcl Hun Hnode Hfresh Hfile Hnil Hname Hfind Htree Hother l fd' Hl.
  unfold sibling_names.
  destruct (decide (l = file)) as [->|Hlf].
  { simplify_eq. rewrite Hnil. constructor. }
  destruct (decide (l = treeNode)) as [->|Hlt].
  - simplify_eq. cbn. rewrite fmap_app. cbn. rewrite Hfile. cbn.
    rewrite Hname.
    rewrite (created_names h h2 treeNode file node) by
      (try done; intros c Hc; by eapply Hcl).
    apply NoDup_app. split_and!.
    + by apply (Hun treeNode node).
    + intros x Hx Hx'. apply list_elem_of_singleton in Hx' as ->.
      by apply (find_child_None_names h name (getChildren node)).
    + apply NoDup_singleton.
  - rewrite Hother in Hl by done.
    rewrite (created_names h h2 treeNode file node) by
      (try done; intros c Hc; by eapply Hcl).
    by apply (Hun l fd').
Qed.

Lemma descend_unique_names type path h (node : nat) it h' r :
  closed h → unique_names h →
  (∀ name, last it = Some name → fs.filename path = [name]) →
  descend type path h node it = Some (h', r) →
  unique_names h'.
Proof.
  revert h node. induction it as [|name rest IH]; intros h node Hcl Hun Hlast Hd.
  { cbn in Hd. by simplify_eq. }
  open_round Hd nd Hnode found Hfind.
  destruct (at_end rest) eqn:Hend.
  - destruct rest; [|done].
    destruct found as [child|]; [by simplify_eq|].
    case_decide; [by simplify_eq|].
    open_create Hd Hnode h1 file h2 Hadd Hfresh Hfile Htree Hother.
    simplify_eq.
    refine (created_unique_names h h' node file nd _ name Hcl Hun Hnode
              Hfresh Hfile eq_refl _ Hfind Htree Hother).
    cbn. by apply Hlast.
  - assert (∀ name', last rest = Some name' → fs.filename path = [name'])
      as Hlast'.
    { intros name' Hl. apply Hlast. by destruct rest. }
    destruct found as [child|]; [by eapply IH|].
    case_decide; [by simplify_eq|].
    open_create Hd Hnode h1 file h2 Hadd Hfresh Hfile Htree Hother.
    eapply IH; [| |done|done].
    + exact (created_closed h h2 node file nd _ Hcl Hnode Hfile eq_refl
               Htree Hother).
    + refine (created_unique_names h h2 node file nd _ name Hcl Hun Hnode
                Hfresh Hfile eq_refl _ Hfind Htree Hother).
      cbn. apply filename_snoc.
Qed.

(** X8. On a tree whose pointers are valid and in which no two children
    of an entry have the same filename, a call for a path whose last
    element is the last element of its relative path keeps it so: no entry
    gets two children with the same filename. *)
Theorem findOrCreateFile_unique_names (d : fs.disk) h system path type
    relative h' r :
  closed h → unique_names h →
  relative_path d h system path = Some (relative, true) →
  (relative ≠ [] → fs.filename path = fs.filename relative) →
  findOrCreateFile d h system path type = Some (h', r) →
  unique_names h'.
Proof.
  intros Hcl Hun Hrel Hname Hf.
  destruct (findOrCreateFile_descend d h system path type relative Hrel)
    as (root & Hroot & _ & Heq).
  rewrite Heq in Hf. eapply descend_unique_names; [done..| |done].
  intros name Hlast. rewrite Hname.
  - unfold fs.filename. by rewrite Hlast.
  - by intros ->.
Qed.

End findOrCreateFile_invariants.

(** ** findOrCreateFile: how much it adds *)

Section added_entries.
Context `{MetaDataModel}.
Implicit Types h : gmap nat FileData.

(** Opens one round of the walk in hypothesis [Hd]. *)
Ltac open_round Hd nd Hnode found Hfind :=
  cbn in Hd;
  lazymatch type of Hd with
  | context [?h !! ?node] =>
      destruct (h !! node) as [nd|] eqn:Hnode; [|done]
  end;
  cbn in Hd;
  lazymatch type of Hd with
  | context [find_child ?h ?name ?cs] =>
      destruct (find_child h name cs) as [found|] eqn:Hfind; [|done]
  end;
  cbn in Hd.

(** Opens the creation of an entry in hypothesis [Hd]. *)
Ltac open_create Hd Hnode h1 file h2 Hadd Hfresh Hfile Htree Hother :=
  lazymatch type of Hd with
  | context [new_FileData ?h ?t ?p] =>
      let Hnew := fresh "Hnew" in
      destruct (new_FileData h t p) as [h1 file] eqn:Hnew;
      destruct (addChild_new _ _ _ _ _ _ _ Hnode Hnew)
        as (h2 & Hadd & Hfresh & Hfile & Htree & Hother);
      rewrite Hadd in Hd; cbn in Hd
  end.

Lemma created_size h h2 (treeNode file : nat) node fd x :
  h !! treeNode = Some node →
  h !! file = None →
  h2 !! file = Some fd →
  h2 !! treeNode = Some x →
  (∀ l, l ≠ file → l ≠ treeNode → h2 !! l = h !! l) →
  size h2 = S (size h).
Proof.
  intros Hnode Hfresh Hfile Htree Hother.
  assert (dom h2 = {[file]} ∪ dom h) as Hdom.
  { apply set_eq. intros l.
    rewrite elem_of_union, elem_of_singleton, !elem_of_dom.
    destruct (decide (l = file)) as [->|Hlf].
    { rewrite Hfile. split; [by left|by eexists]. }
    destruct (decide (l = treeNode)) as [->|Hlt].
    - rewrite Htree, Hnode. split; [right|]; by eexists.
    - rewrite Hother by done. split; [by right|]. by intros [?|?]. }
  rewrite <- !size_dom, Hdom, size_union, size_singleton; [done|].
  apply disjoint_singleton_l. by apply not_elem_of_dom.
Qed.

Lemma descend_size type path h (node : nat) it h' r :
  descend type path h node it = Some (h', r) →
  (size h ≤ size h' ≤ size h + List.length it)%nat
  ∧ (type = FOLDER → size h' = size h).
Proof.
  revert h node. induction it as [|name rest IH]; intros h node Hd.
  { cbn in Hd. simplify_eq. cbn. split; [lia|done]. }
  open_round Hd nd Hnode found Hfind. cbn [List.length].
  destruct (at_end rest).
  - destruct found as [child|]; [simplify_eq; split; [lia|done]|].
    case_decide as Hty; [simplify_eq; split; [lia|done]|].
    open_create Hd Hnode h1 file h2 Hadd Hfresh Hfile Htree Hother.
    simplify_eq.
    rewrite (created_size h h' node file nd _ _ Hnode Hfresh Hfile Htree
               Hother). split; [lia|done].
  - destruct found as [child|].
    { destruct (IH _ _ Hd) as [? ?]. split; [lia|done]. }
    case_decide as Hty; [simplify_eq; split; [lia|done]|].
    open_create Hd Hnode h1 file h2 Hadd Hfresh Hfile Htree Hother.
    destruct (IH _ _ Hd) as [Hle _].
    rewrite (created_size h h2 node file nd _ _ Hnode Hfresh Hfile Htree
               Hother) in Hle. split; [lia|done].
Qed.

(** X9. A call adds at most one entry for each element of the relative
    path and removes none; a call for a folder adds none. *)
Theorem findOrCreateFile_size (d : fs.disk) h system path type relative
    h' r :
  relative_path d h system path = Some (relative, true) →
  findOrCreateFile d h system path type = Some (h', r) →
  (size h ≤ size h' ≤ size h + List.length relative)%nat
  ∧ (type = FOLDER → size h' = size h).
Proof.
  intros Hrel Hf.
  destruct (findOrCreateFile_descend d h system path type relative Hrel)
    as (root & _ & _ & Heq).
  rewrite Heq in Hf. by eapply descend_size.
Qed.

End added_entries.

(** ** parseGamelist: what a pass does to the tree *)

Section parseGamelist_frame.
Context `{MetaDataModel}.
Implicit Types h : gmap nat FileData.

Lemma structure_set_metadata h (file : nat) fd md :
  h !! file = Some fd →
  structure (<[file := set_metadata fd md]> h) = structure h.
Proof.
  intros Hfd. unfold structure. rewrite fmap_insert. apply insert_id.
  by rewrite lookup_fmap, Hfd.
Qed.

Lemma grows_structure h h' : grows h h' → grows (structure h) (structure h').
Proof.
  intros Hg l fd. unfold structure. rewrite !lookup_fmap.
  destruct (h !! l) as [x|] eqn:Hx; [|done]. cbn. intros [= <-].
  destruct (Hg l x Hx) as (x' & -> & ? & ? & ? & ? & ?). cbn.
  eexists. split; [done|]. by split_and!.
Qed.

Lemma parent_linked_set_metadata h (file : nat) fd md :
  parent_linked h → h !! file = Some fd →
  parent_linked (<[file := set_metadata fd md]> h).
Proof.
  intros Hpl Hfd l fd' c Hl Hc.
  assert (∃ fd0, h !! l = Some fd0 ∧ getChildren fd0 = getChildren fd')
    as (fd0 & Hl0 & Hkids).
  { destruct (decide (l = file)) as [->|Hne].
    - rewrite lookup_insert_eq in Hl. simplify_eq. by exists fd.
    - rewrite lookup_insert_ne in Hl by done. by exists fd'. }
  rewrite <- Hkids in Hc.
  destruct (Hpl l fd0 c Hl0 Hc) as (cfd & Hcfd & Hp).
  destruct (decide (c = file)) as [->|Hne].
  - rewrite lookup_insert_eq. simplify_eq. by eexists.
  - rewrite lookup_insert_ne by done. by eexists.
Qed.

(** The rounds of the loop: nothing, or a call of [findOrCreateFile]
    followed, when it returned an entry, by new metadata for that entry. *)
Lemma load_file_node_cases (d : fs.disk) system type h fileNode h' :
  load_file_node d system type h fileNode = Some h' →
  h' = h
  ∨ ∃ h1 r,
      findOrCreateFile d h system
        (fs.path_of_string (text_get (child fileNode "path"))) type
      = Some (h1, r)
      ∧ (h' = h1
         ∨ ∃ (file : nat) fd md,
             h1 !! file = Some fd ∧ h' = <[file := set_metadata fd md]> h1).
Proof.
  unfold load_file_node.
  destruct (negb _); [intros [= <-]; by left|].
  destruct (findOrCreateFile d h system _ type) as [[h1 r]|]; [|done].
  cbn. intros Hl. right. exists h1, r. split; [done|].
  destruct r as [file|]; [|left; by simplify_eq].
  destruct (h1 !! file) as [fd|] eqn:Hfd; [|done]. cbn in Hl.
  right. simplify_eq. by eexists _, _, _.
Qed.

(** X10. An element whose path resolves outside the root folder (its
    canonical form has another root path than the canonical form of the
    root folder's path, or does not extend it) is passed over: the tree
    after it is the tree before it. *)
Theorem load_file_node_outside (d : fs.disk) system type h fileNode
    (root : nat) rootfd (p r : fs.path) :
  let path := fs.path_of_string (text_get (child fileNode "path")) in
  getRootFolder system = Some root →
  h !! root = Some rootfd →
  fs.canonical d path = Some p →
  fs.canonical d (getPath rootfd) = Some r →
  ¬ (fs.root_path p = fs.root_path r ∧ r `prefix_of` p) →
  load_file_node d system type h fileNode = Some h.
Proof.
  intros path Hroot Hfd Hp Hr Hout. unfold load_file_node. fold path.
  destruct (negb _); [done|].
  rewrite (findOrCreateFile_eq d h system path type root rootfd p r)
    by done.
  by rewrite decide_False.
Qed.

Lemma load_file_nodes_folder_structure (d : fs.disk) system h fileNodes h' :
  load_file_nodes d system FOLDER h fileNodes = Some h' →
  structure h' = structure h.
Proof.
  revert h. induction fileNodes as [|n rest IH]; intros h; cbn.
  { by intros [= <-]. }
  destruct (load_file_node d system FOLDER h n) as [h1|] eqn:Hn; [|done].
  cbn. intros Hrest. rewrite (IH h1 Hrest).
  apply load_file_node_cases in Hn as [->|(h2 & r & Hf & Hcase)]; [done|].
  apply findOrCreateFile_folder_pure in Hf as ->.
  destruct Hcase as [->|(file & fd & md & Hfd & ->)]; [done|].
  by apply structure_set_metadata.
Qed.

(** X11. The pass over the [folder] elements adds no entry and moves none:
    the tree after it has the same entries with the same kind, path,
    children and parent; only metadata differ. *)
Theorem load_folders_keeps_structure (d : fs.disk) system h fileNodes h'
    (l : nat) :
  load_file_nodes d system FOLDER h fileNodes = Some h' →
  (λ fd, (getType fd, getPath fd, getChildren fd, getParent fd)) <$> h' !! l
  = (λ fd, (getType fd, getPath fd, getChildren fd, getParent fd)) <$> h !! l.
Proof.
  intros Hl. apply load_file_nodes_folder_structure in Hl.
  apply (f_equal (λ m, m !! l)) in Hl. unfold structure in Hl.
  rewrite !lookup_fmap in Hl.
  destruct (h' !! l) as [a|], (h !! l) as [b|]; cbn in *; try done.
  unfold set_metadata in Hl. injection Hl as Ht Hp Hc Hpa.
  by rewrite Ht, Hp, Hc, Hpa.
Qed.

Lemma load_file_nodes_grows (d : fs.disk) system type h fileNodes h' :
  load_file_nodes d system type h fileNodes = Some h' →
  grows (structure h) (structure h').
Proof.
  revert h. induction fileNodes as [|n rest IH]; intros h; cbn.
  { intros [= <-]. apply grows_refl. }
  destruct (load_file_node d system type h n) as [h1|] eqn:Hn; [|done].
  cbn. intros Hrest. eapply grows_trans; [|by apply IH].
  apply load_file_node_cases in Hn as [->|(h2 & r & Hf & Hcase)];
    [apply grows_refl|].
  apply findOrCreateFile_grows in Hf.
  destruct Hcase as [->|(file & fd & md & Hfd & ->)].
  - by apply grows_structure.
  - rewrite structure_set_metadata by done. by apply grows_structure.
Qed.

Lemma parseGamelist_grows (d : fs.disk) system h xml h' :
  parseGamelist d system h xml = Some h' →
  grows (structure h) (structure h').
Proof.
  unfold parseGamelist.
  destruct xml as [| |doc]; try (intros [= <-]; apply grows_refl).
  destruct (child_of doc "gameList") as [root|];
    [|intros [= <-]; apply grows_refl].
  destruct (load_file_nodes d system GAME h _) as [h1|] eqn:Hgames; [|done].
  cbn. intros Hfolders.
  eapply grows_trans; by eapply load_file_nodes_grows.
Qed.

(** X12. Loading a gamelist never removes or moves an entry: every entry
    of the tree is still there afterwards with its kind, path and parent,
    and the children it had come first, in their order, among its
    children. *)
Theorem parseGamelist_keeps_entries (d : fs.disk) system h xml h'
    (l : nat) fd :
  parseGamelist d system h xml = Some h' →
  h !! l = Some fd →
  ∃ fd', h' !! l = Some fd'
    ∧ getType fd' = getType fd
    ∧ getPath fd' = getPath fd
    ∧ getParent fd' = getParent fd
    ∧ getChildren fd `prefix_of` getChildren fd'.
Proof.
  intros Hp Hl. apply parseGamelist_grows in Hp.
  destruct (Hp l (set_metadata fd ∅)) as (x & Hx & Ht & Hpa & _ & Hpr & Hc).
  { unfold structure. by rewrite lookup_fmap, Hl. }
  unfold structure in Hx. rewrite lookup_fmap in Hx.
  destruct (h' !! l) as [fd'|]; [|done]. cbn in Hx. simplify_eq.
  exists fd'. by split_and!.
Qed.

Lemma load_file_nodes_linked (d : fs.disk) system type h fileNodes h' :
  parent_linked h →
  load_file_nodes d system type h fileNodes = Some h' →
  parent_linked h'.
Proof.
  revert h. induction fileNodes as [|n rest IH]; intros h Hpl; cbn.
  { by intros [= <-]. }
  destruct (load_file_node d system type h n) as [h1|] eqn:Hn; [|done].
  cbn. apply IH.
  apply load_file_node_cases in Hn as [->|(h2 & r & Hf & Hcase)]; [done|].
  apply (findOrCreateFile_linked _ _ _ _ _ _ _ Hpl) in Hf.
  destruct Hcase as [->|(file & fd & md & Hfd & ->)]; [done|].
  by apply parent_linked_set_metadata.
Qed.

(** X13. Loading a gamelist keeps the tree linked: if before it every
    child of an entry is in the tree and names that entry as its parent,
    the same holds afterwards. *)
Theorem parseGamelist_parent_linked (d : fs.disk) system h xml h'
    (l c : nat) fd :
  parent_linked h →
  parseGamelist d system h xml = Some h' →
  h' !! l = Some fd → c ∈ getChildren fd →
  ∃ cfd, h' !! c = Some cfd ∧ getParent cfd = Some l.
Proof.
  intros Hpl Hp. revert l fd c. change (parent_linked h').
  unfold parseGamelist in Hp.
  destruct xml as [| |doc]; try by simplify_eq.
  destruct (child_of doc "gameList") as [root|]; [|by simplify_eq].
  destruct (load_file_nodes d system GAME h _) as [h1|] eqn:Hgames; [|done].
  cbn in Hp. eapply load_file_nodes_linked; [|done].
  by eapply load_file_nodes_linked.
Qed.

Lemma load_in_order_app (d : fs.disk) system h before after :
  load_in_order d system h (before ++ after)
  = load_in_order d system h before
    ≫= λ h1, load_in_order d system h1 after.
Proof.
  revert h. induction before as [|n before IH]; intros h; cbn; [done|].
  destruct (load_file_node d system (kind_of n) h n) as [h1|]; cbn; [|done].
  apply IH.
Qed.

Lemma load_in_order_kind (d : fs.disk) system type h fileNodes :
  Forall (λ n, kind_of n = type) fileNodes →
  load_in_order d system h fileNodes
  = load_file_nodes d system type h fileNodes.
Proof.
  intros Hall. revert h.
  induction Hall as [|n rest Hn _ IH]; intros h; cbn; [done|].
  rewrite Hn.
  destruct (load_file_node d system type h n) as [h1|]; cbn; [|done].
  apply IH.
Qed.

Lemma children_named_kind (root : xml_node) type :
  Forall (λ n, kind_of n = type) (children_named root (tag_of type)).
Proof.
  apply Forall_forall. intros n [_ Hn]%elem_of_filter_bool.
  unfold kind_of, named in *. apply bool_decide_eq_true_1 in Hn.
  rewrite Hn. by destruct type.
Qed.

(** X14. Only the first [gameList] node counts, of it only the children
    named [game] and [folder], and all the games are loaded before all the
    folders wherever they stand: loading a document is loading, one after
    the other, the game elements in their order and then the folder
    elements in their order, each as the kind of its tag. *)
Theorem parseGamelist_games_then_folders (d : fs.disk) system h doc
    (root : xml_node) :
  child_of doc "gameList" = Some root →
  parseGamelist d system h (Document doc)
  = load_in_order d system h
      (children_named root "game" ++ children_named root "folder").
Proof.
  intros Hroot. unfold parseGamelist. rewrite Hroot.
  rewrite load_in_order_app.
  rewrite (load_in_order_kind d system GAME)
    by apply (children_named_kind root GAME).
  destruct (load_file_nodes d system GAME h _) as [h1|]; cbn; [|done].
  rewrite (load_in_order_kind d system FOLDER)
    by apply (children_named_kind root FOLDER).
  done.
Qed.

End parseGamelist_frame.

(** ** updateGamelist: what a run leaves in the document *)

Section updateGamelist_result.
Context `{MetaDataModel}.
Variable d : fs.disk.
Implicit Types (f g : FileData) (n : xml_node) (root : list xml_node)
  (xml : xml_file) (h : gmap nat FileData).

Lemma set_root_children_names doc children :
  node_name <$> set_root_children doc children = node_name <$> doc.
Proof.
  induction doc as [|n doc IH]; cbn; [done|].
  destruct (named "gameList" n); cbn; by rewrite ?IH.
Qed.

Lemma set_root_children_others doc children (i : nat) n :
  doc !! i = Some n → named "gameList" n = false →
  set_root_children doc children !! i = Some n.
Proof.
  revert i. induction doc as [|m doc IH]; intros i; cbn; [done|].
  destruct i as [|i]; cbn.
  - intros [= ->] Hn. by rewrite Hn.
  - intros Hi Hn. destruct (named "gameList" m); cbn; [done|]. by apply IH.
Qed.

(** X15. A run on a document changes nothing outside the children of its
    [gameList] node: the file is a document afterwards, its top-level nodes
    have the same names in the same order, and every top-level node not
    named [gameList] is the node it was. *)
Theorem updateGamelist_top_level cfg save_ok h system doc xml' :
  updateGamelist cfg d save_ok h system (Document doc) = Some xml' →
  ∃ doc',
    xml' = Document doc'
    ∧ node_name <$> doc' = node_name <$> doc
    ∧ ∀ (i : nat) n, doc !! i = Some n → named "gameList" n = false →
        doc' !! i = Some n.
Proof.
  intros Hu. apply updateGamelist_cases in Hu
    as [->|(doc0 & rootNode & _ & _ & Hxml & _ & _ & ->)].
  { by exists doc. }
  destruct Hxml as [[= <-]|[? _]]; [|done].
  eexists. split; [done|]. split.
  - apply set_root_children_names.
  - intros i n. apply set_root_children_others.
Qed.

Lemma update_files_app files files' root :
  update_files d (files ++ files') root
  = update_files d files' (update_files d files root).
Proof. unfold update_files. apply foldl_app. Qed.

(** X16. The element written for an entry that has no alias among the
    entries after it is in the document the loop leaves, whatever the
    document held before. *)
Theorem update_files_writes_entry before f after root n :
  reparses f →
  n ∈ element_of f →
  Forall (λ g, alias d f g = false) after →
  n ∈ update_files d (before ++ f :: after) root.
Proof.
  intros Hre Hn Hafter.
  rewrite update_files_app. cbn. rewrite update_file_eq.
  assert ([n] `sublist_of`
            remove_existing d (tag_of (getType f)) (getPath f)
              (update_files d before root) ++ element_of f) as Hsub.
  { apply sublist_inserts_l.
    destruct (addFileDataNode_cases f (tag_of (getType f))) as [Hc|Hc];
      unfold element_of in *; rewrite Hc in Hn |- *.
    - by apply elem_of_nil in Hn.
    - by apply list_elem_of_singleton in Hn as ->. }
  eapply sublist_subseteq; [|by apply list_elem_of_singleton].
  apply update_files_keeps; [exact Hsub|].
  constructor; [|constructor].
  eapply Forall_impl; [exact Hafter|]. cbn. intros g Hg.
  by rewrite (entry_of_own d f g n).
Qed.

(** X17. A run does not multiply elements: if the document held at most
    one element of each entry before the loop, it holds at most one
    element of each entry after it. *)
Theorem update_files_at_most_one files root :
  Forall reparses files →
  Forall (at_most_one d root) files →
  Forall (at_most_one d (update_files d files root)) files.
Proof.
  intros Hre Hone. rewrite update_files_shape by done.
  apply Forall_forall. intros f Hf. unfold at_most_one.
  rewrite List.filter_app, length_app, foreign_entry_free by done.
  by apply reappended_at_most_one.
Qed.

(** X18. What [addFileDataNode] writes for an entry, the scan for that
    entry finds: on a document without elements of the entry, adding the
    entry's element and then scanning for the entry gives back the
    document. *)
Theorem remove_existing_addFileDataNode f root :
  reparses f →
  Forall (λ n, entry_of d f n = false) root →
  remove_existing d (tag_of (getType f)) (getPath f)
    (addFileDataNode root f (tag_of (getType f)))
  = root.
Proof.
  intros Hre Hroot. rewrite addFileDataNode_app.
  destruct (addFileDataNode_cases f (tag_of (getType f))) as [Hc|Hc].
  - rewrite Hc, app_nil_r. by apply remove_existing_none.
  - set (n := XNode (tag_of (getType f)) EmptyString
                (XNode "path" (fs.generic_string (getPath f)) []
                 :: appendToXML (metadata f))) in *.
    assert (n ∈ addFileDataNode [] f (tag_of (getType f))) as Hn
      by (rewrite Hc; by left).
    rewrite Hc. rewrite <- (app_nil_r root) at 2.
    apply remove_existing_first; [done|].
    change (entry_of d f n = true).
    by rewrite (entry_of_own d f f n), alias_refl.
Qed.

(** X19. One round of the loop on a document with at most one element of
    the entry: that element is gone, every other element is kept in its
    order, and the entry's current element, if it writes one, is last. *)
Theorem update_file_replaces root f :
  at_most_one d root f →
  update_file d root f
  = List.filter (λ n, negb (entry_of d f n)) root ++ element_of f.
Proof.
  intros Hone. rewrite update_file_eq. f_equal.
  by apply remove_existing_filter.
Qed.

Lemma no_alias_snoc files f :
  no_alias d (files ++ [f]) = true →
  no_alias d files = true ∧ ∀ g, g ∈ files → alias d g f = false.
Proof.
  induction files as [|g0 files IH]; cbn.
  { intros _. split; [done|]. intros g Hg. by apply elem_of_nil in Hg. }
  rewrite forallb_app. cbn. rewrite andb_true_r, !andb_true_iff.
  intros [[Hrest Hf] Hna]. destruct (IH Hna) as [-> Hall].
  split; [by rewrite Hrest|].
  intros g [->|Hg]%elem_of_cons; [by apply negb_true_iff|by apply Hall].
Qed.

Lemma reappended_no_alias files :
  Forall reparses files → no_alias d files = true →
  reappended d files = flat_map element_of files.
Proof.
  induction files as [|f files IH] using rev_ind; intros Hre Hna; [done|].
  apply Forall_app in Hre as [Hre _].
  apply no_alias_snoc in Hna as [Hna Hall].
  rewrite reappended_snoc, flat_map_app, IH by done. cbn.
  rewrite app_nil_r. f_equal.
  apply filter_none. rewrite filter_all_false; [done|].
  intros n Hn. apply list_elem_of_In, in_flat_map in Hn as (g & Hg & Hn).
  apply list_elem_of_In in Hg, Hn. rewrite Forall_forall in Hre.
  rewrite (entry_of_own d g f n) by auto. by apply Hall.
Qed.

(** X20. When there is no gamelist file yet, a run that writes makes a
    document with a single [gameList] node; if no entry of the tree is an
    alias of a later one, its children are the elements of the entries in
    the order of the traversal, nothing for an entry that is default
    only. *)
Theorem updateGamelist_new_file cfg h system (rootFolder : nat) :
  DisableGamelistWrites cfg || IGNOREGAMELIST cfg = false →
  closed h →
  getRootFolder system = Some rootFolder →
  is_Some (h !! rootFolder) →
  Forall reparses (tree_files h system) →
  no_alias d (tree_files h system) = true →
  updateGamelist cfg d true h system NoFile
  = Some (Document [XNode "gameList" EmptyString
                      (flat_map element_of (tree_files h system))]).
Proof.
  intros Hcfg Hcl Hsys [rootfd Hfd] Hre Hna.
  unfold tree_files in *. rewrite Hsys in *. cbn in *.
  destruct (files_of_total h rootFolder Hcl) as [files Hfiles].
  rewrite Hfiles in *. cbn in *.
  unfold updateGamelist. rewrite Hcfg.
  change (child_of [XNode "gameList" EmptyString []] "gameList")
    with (Some (XNode "gameList" EmptyString [])).
  rewrite Hsys. cbn. rewrite Hfd. cbn.
  fold (files_of h rootFolder). rewrite Hfiles. cbn.
  change (named "gameList" (XNode "gameList" EmptyString [])) with true.
  cbn. do 3 f_equal.
  rewrite update_files_shape; [|done|].
  - unfold foreign. cbn. f_equal. by apply reappended_no_alias.
  - apply Forall_forall. intros f _. unfold at_most_one. cbn. lia.
Qed.

End updateGamelist_result.

(** ** What the three entry points never do *)

Section never.
Context `{MetaDataModel}.
Variable d : fs.disk.
Implicit Types (f g : FileData) (n : xml_node) (root : list xml_node)
  (xml : xml_file) (h : gmap nat FileData).

Lemma descend_folder_resolves path h (node : nat) it h' (target : nat) :
  descend FOLDER path h node it = Some (h', Some target) →
  resolves h node it target.
Proof.
  revert h node. induction it as [|name rest IH]; intros h node Hd.
  { cbn in Hd. by simplify_eq. }
  cbn in Hd.
  destruct (h !! node) as [nd|] eqn:Hnode; [|done]. cbn in Hd.
  destruct (find_child h name (getChildren nd)) as [found|] eqn:Hfind;
    [|done]. cbn in Hd.
  destruct rest as [|name' rest]; cbn [at_end] in Hd.
  - destruct found as [child|]; [|by case_decide].
    simplify_eq. by eapply resolves_last.
  - destruct found as [child|]; [|by case_decide].
    eapply resolves_step; [done..|]. by apply IH.
Qed.

(** X21. A call for a folder that returns an entry found it: every element
    of the relative path had a child of its name under the node reached
    before it, the entry is the child found for the last element, and the
    tree is as before. *)
Theorem findOrCreateFile_folder_found h system path relative h'
    (target : nat) :
  relative_path d h system path = Some (relative, true) →
  findOrCreateFile d h system path FOLDER = Some (h', Some target) →
  h' = h
  ∧ ∃ root : nat, getRootFolder system = Some root
                  ∧ resolves h root relative target.
Proof.
  intros Hrel Hf.
  destruct (findOrCreateFile_descend d h system path FOLDER relative Hrel)
    as (root & Hroot & _ & Heq).
  rewrite Heq in Hf. split; [by eapply descend_folder_pure|].
  exists root. split; [done|]. by eapply descend_folder_resolves.
Qed.

Lemma load_file_nodes_all_stale system type h fileNodes :
  Forall (λ n, fs.exists_ d (fs.path_of_string (text_get (child n "path")))
               = false) fileNodes →
  load_file_nodes d system type h fileNodes = Some h.
Proof.
  induction 1 as [|n rest Hn _ IH]; cbn; [done|].
  unfold load_file_node. by rewrite Hn.
Qed.

(** X22. A gamelist none of whose elements names a path that exists on
    disk loads nothing: the tree after the load is the tree before it. *)
Theorem parseGamelist_all_stale system h xml :
  Forall (λ n, fs.exists_ d (fs.path_of_string (text_get (child n "path")))
               = false) (gamelist_children xml) →
  parseGamelist d system h xml = Some h.
Proof.
  intros Hstale. unfold parseGamelist.
  destruct xml as [| |doc]; [done..|]. cbn in Hstale.
  destruct (child_of doc "gameList") as [root|]; [|done]. cbn in Hstale.
  assert (∀ tag, Forall (λ n, fs.exists_ d
                    (fs.path_of_string (text_get (child n "path"))) = false)
                   (children_named root tag)) as Hsub.
  { intros tag. rewrite Forall_forall in Hstale. apply Forall_forall.
    intros n [Hn _]%elem_of_filter_bool. by apply Hstale. }
  rewrite !load_file_nodes_all_stale by done. cbn.
  by rewrite load_file_nodes_all_stale.
Qed.

(** X23. A call changes the gamelist file only when neither setting
    forbids writing, the file could be saved, the file was absent or well
    formed, and the system has a root folder; the file is then a
    document. *)
Theorem updateGamelist_changes_only_when cfg save_ok h system xml xml' :
  updateGamelist cfg d save_ok h system xml = Some xml' →
  xml' ≠ xml →
  DisableGamelistWrites cfg = false
  ∧ IGNOREGAMELIST cfg = false
  ∧ save_ok = true
  ∧ xml ≠ Malformed
  ∧ is_Some (getRootFolder system)
  ∧ ∃ doc', xml' = Document doc'.
Proof.
  intros Hu Hne. apply updateGamelist_cases in Hu
    as [->|(doc & rootNode & -> & Hcfg & Hxml & _
            & (rootFolder & Hsys & _) & ->)]; [done|].
  apply orb_false_iff in Hcfg as [-> ->].
  do 3 (split; [done|]).
  split; [by destruct Hxml as [->|[-> _]]|]. split; by eexists.
Qed.

Lemma remove_existing_sublist tag gamePath root :
  remove_existing d tag gamePath root `sublist_of` root.
Proof.
  induction root as [|n root IH]; [done|].
  rewrite remove_existing_cons.
  destruct (is_entry_of d tag gamePath n); by constructor.
Qed.

Lemma remove_existing_length tag gamePath root :
  (List.length root
   ≤ S (List.length (remove_existing d tag gamePath root)))%nat.
Proof.
  induction root as [|n root IH]; cbn [List.length]; [lia|].
  rewrite remove_existing_cons.
  destruct (is_entry_of d tag gamePath n); cbn [List.length]; lia.
Qed.

(** X24. The loop does not invent elements and removes at most one for
    each entry: every element of the document it leaves was in the
    document before or is the element written for an entry, and the
    document has lost at most as many elements as there are entries. *)
Theorem update_files_provenance files root :
  (∀ n, n ∈ update_files d files root →
        n ∈ root ∨ ∃ f, f ∈ files ∧ n ∈ element_of f)
  ∧ (List.length root
     ≤ List.length (update_files d files root) + List.length files)%nat.
Proof.
  revert root. induction files as [|f files IH]; intros root.
  { cbn. split; [by left|lia]. }
  change (update_files d (f :: files) root)
    with (update_files d files (update_file d root f)).
  destruct (IH (update_file d root f)) as [Hin Hlen]. split.
  - intros n Hn. destruct (Hin n Hn) as [Hn'|(g & Hg & Hn')].
    + rewrite update_file_eq in Hn'. apply elem_of_app in Hn' as [Hr|He].
      * left. eapply sublist_subseteq; [apply remove_existing_sublist|done].
      * right. exists f. split; [by left|done].
    + right. exists g. split; [by right|done].
  - assert (List.length root ≤ S (List.length (update_file d root f)))%nat
      as Hstep.
    { rewrite update_file_eq, length_app.
      pose proof (remove_existing_length (tag_of (getType f)) (getPath f)
                    root). lia. }
    cbn [List.length]. lia.
Qed.

End never.

(** ** The further properties on the sample data *)

Section more_samples.
Import sample more.
#[local] Existing Instance sample.model.

Ltac computed := vm_compute; reflexivity.
Ltac decided := apply (bool_decide_unpack _); vm_compute; exact I.

Lemma removeCommonPath_contains_iff_prefix_witness :
  fs.canonical disk mario = Some mario
  ∧ fs.canonical disk nes_slash = Some nes
  ∧ ∃ result contains,
      removeCommonPath disk mario nes_slash = Some (result, contains)
      ∧ (contains = true
         ↔ fs.root_path mario = fs.root_path nes ∧ nes `prefix_of` mario)
      ∧ (contains = true →
         result = List.filter not_dot (drop (List.length nes) mario)
         ∧ fs.dot ∉ result)
      ∧ (contains = false → result = mario).
Proof.
  assert (fs.canonical disk mario = Some mario) as Hp by computed.
  assert (fs.canonical disk nes_slash = Some nes) as Hr by computed.
  exact (conj Hp (conj Hr
    (removeCommonPath_contains_iff_prefix disk mario nes_slash mario nes
       Hp Hr))).
Defined.

Lemma findOrCreateFile_outside_witness :
  getRootFolder system = Some 0
  ∧ two_games !! 0 = Some (root_entry [1; 2])
  ∧ fs.canonical disk mario = Some mario
  ∧ fs.canonical disk (getPath (root_entry [1; 2])) = Some nes
  ∧ ¬ (fs.root_path mario = fs.root_path nes ∧ nes `prefix_of` mario)
  ∧ findOrCreateFile disk two_games system mario GAME
    = Some (two_games, None).
Proof.
  assert (two_games !! 0 = Some (root_entry [1; 2])) as Hfd by computed.
  assert (fs.canonical disk mario = Some mario) as Hp by computed.
  assert (fs.canonical disk (getPath (root_entry [1; 2])) = Some nes)
    as Hr by computed.
  assert (¬ (fs.root_path mario = fs.root_path nes ∧ nes `prefix_of` mario))
    as Hout by decided.
  exact (conj eq_refl (conj Hfd (conj Hp (conj Hr (conj Hout
    (findOrCreateFile_outside disk two_games system mario GAME 0
       (root_entry [1; 2]) mario nes eq_refl Hfd Hp Hr Hout)))))).
Defined.

Lemma findOrCreateFile_root_itself_witness :
  getRootFolder system = Some 0
  ∧ two_games !! 0 = Some (root_entry [1; 2])
  ∧ fs.canonical disk nes_slash = Some nes
  ∧ fs.canonical disk (getPath (root_entry [1; 2])) = Some nes
  ∧ findOrCreateFile disk two_games system nes_slash FOLDER
    = Some (two_games, None).
Proof.
  assert (two_games !! 0 = Some (root_entry [1; 2])) as Hfd by computed.
  assert (fs.canonical disk nes_slash = Some nes) as Hp by computed.
  assert (fs.canonical disk (getPath (root_entry [1; 2])) = Some nes)
    as Hr by computed.
  exact (conj eq_refl (conj Hfd (conj Hp (conj Hr
    (findOrCreateFile_root_itself disk two_games system nes_slash FOLDER 0
       (root_entry [1; 2]) nes eq_refl Hfd Hp Hr))))).
Defined.

Lemma findOrCreateFile_existing_witness :
  getRootFolder system = Some 0
  ∧ relative_path disk two_games system a_nes = Some (["a.nes"], true)
  ∧ resolves two_games 0 ["a.nes"] 1
  ∧ findOrCreateFile disk two_games system a_nes FOLDER
    = Some (two_games, Some 1).
Proof.
  assert (relative_path disk two_games system a_nes = Some (["a.nes"], true))
    as Hrel by computed.
  assert (resolves two_games 0 ["a.nes"] 1) as Hres.
  { apply (resolves_last two_games 0 (root_entry [1; 2]) "a.nes" 1);
      computed. }
  exact (conj eq_refl (conj Hrel (conj Hres
    (findOrCreateFile_existing disk two_games system a_nes FOLDER 0 1
       ["a.nes"] eq_refl Hrel Hres)))).
Defined.

Lemma findOrCreateFile_game_found_or_made_witness :
  closed root_only
  ∧ relative_path pi_disk root_only system bar_nes
    = Some (["foo"; "bar.nes"], true)
  ∧ ∃ h' (root file : nat),
      getRootFolder system = Some root
      ∧ findOrCreateFile pi_disk root_only system bar_nes GAME
        = Some (h', Some file)
      ∧ ((h' = root_only ∧ resolves root_only root ["foo"; "bar.nes"] file)
         ∨ (root_only !! file = None
            ∧ ∃ fd, h' !! file = Some fd
                ∧ getType fd = GAME ∧ getPath fd = bar_nes
                ∧ getChildren fd = [])).
Proof.
  assert (closed root_only) as Hcl by decided.
  assert (relative_path pi_disk root_only system bar_nes
          = Some (["foo"; "bar.nes"], true)) as Hrel by computed.
  exact (conj Hcl (conj Hrel
    (findOrCreateFile_game_found_or_made pi_disk root_only system bar_nes
       ["foo"; "bar.nes"] Hcl Hrel (λ E, nil_cons (eq_sym E))))).
Defined.

Lemma findOrCreateFile_keeps_entries_witness :
  findOrCreateFile pi_disk root_only system bar_nes GAME
  = Some (with_bar, Some 2)
  ∧ root_only !! 0 = Some (root_entry [])
  ∧ ∃ fd', with_bar !! 0 = Some fd'
      ∧ getType fd' = getType (root_entry [])
      ∧ getPath fd' = getPath (root_entry [])
      ∧ metadata fd' = metadata (root_entry [])
      ∧ getParent fd' = getParent (root_entry [])
      ∧ getChildren (root_entry []) `prefix_of` getChildren fd'.
Proof.
  assert (findOrCreateFile pi_disk root_only system bar_nes GAME
          = Some (with_bar, Some 2)) as Hf by computed.
  assert (root_only !! 0 = Some (root_entry [])) as Hl by computed.
  exact (conj Hf (conj Hl
    (findOrCreateFile_keeps_entries pi_disk root_only system bar_nes GAME
       with_bar (Some 2) 0 (root_entry []) Hf Hl))).
Defined.

Lemma findOrCreateFile_parent_linked_witness :
  parent_linked root_only
  ∧ findOrCreateFile pi_disk root_only system bar_nes GAME
    = Some (with_bar, Some 2)
  ∧ with_bar !! 1 = Some foo_entry
  ∧ 2 ∈ getChildren foo_entry
  ∧ ∃ cfd, with_bar !! 2 = Some cfd ∧ getParent cfd = Some 1.
Proof.
  assert (parent_linked root_only) as Hpl by decided.
  assert (findOrCreateFile pi_disk root_only system bar_nes GAME
          = Some (with_bar, Some 2)) as Hf by computed.
  assert (with_bar !! 1 = Some foo_entry) as Hl by computed.
  assert (2 ∈ getChildren foo_entry) as Hc by (by left).
  exact (conj Hpl (conj Hf (conj Hl (conj Hc
    (findOrCreateFile_parent_linked pi_disk root_only system bar_nes GAME
       with_bar (Some 2) 1 2 foo_entry Hpl Hf Hl Hc))))).
Defined.

Lemma findOrCreateFile_unique_names_witness :
  closed two_games ∧ unique_names two_games
  ∧ relative_path pi_disk two_games system bar_nes
    = Some (["foo"; "bar.nes"], true)
  ∧ fs.filename bar_nes = fs.filename ["foo"; "bar.nes"]
  ∧ ∃ h',
      findOrCreateFile pi_disk two_games system bar_nes GAME
      = Some (h', Some 4)
      ∧ unique_names h'.
Proof.
  assert (closed two_games) as Hcl by decided.
  assert (unique_names two_games) as Hun by decided.
  assert (relative_path pi_disk two_games system bar_nes
          = Some (["foo"; "bar.nes"], true)) as Hrel by computed.
  assert (fs.filename bar_nes = fs.filename ["foo"; "bar.nes"]) as Hname
    by computed.
  destruct (findOrCreateFile pi_disk two_games system bar_nes GAME)
    as [[h' r]|] eqn:Hf; [|by vm_compute in Hf].
  assert (r = Some 4) as -> by (vm_compute in Hf; congruence).
  split; [exact Hcl|]. split; [exact Hun|]. split; [exact Hrel|].
  split; [exact Hname|]. exists h'. split; [done|].
  exact (findOrCreateFile_unique_names pi_disk two_games system bar_nes GAME
           ["foo"; "bar.nes"] h' (Some 4) Hcl Hun Hrel (λ _, Hname) Hf).
Defined.

Lemma findOrCreateFile_size_witness :
  relative_path pi_disk root_only system bar_nes
  = Some (["foo"; "bar.nes"], true)
  ∧ findOrCreateFile pi_disk root_only system bar_nes GAME
    = Some (with_bar, Some 2)
  ∧ (size root_only ≤ size with_bar
     ≤ size root_only + List.length ["foo"; "bar.nes"])%nat
  ∧ (GAME = FOLDER → size with_bar = size root_only).
Proof.
  assert (relative_path pi_disk root_only system bar_nes
          = Some (["foo"; "bar.nes"], true)) as Hrel by computed.
  assert (findOrCreateFile pi_disk root_only system bar_nes GAME
          = Some (with_bar, Some 2)) as Hf by computed.
  exact (conj Hrel (conj Hf
    (findOrCreateFile_size pi_disk root_only system bar_nes GAME
       ["foo"; "bar.nes"] with_bar (Some 2) Hrel Hf))).
Defined.

Lemma load_file_node_outside_witness :
  let path := fs.path_of_string (text_get (child mario_element "path")) in
  getRootFolder system = Some 0
  ∧ two_games !! 0 = Some (root_entry [1; 2])
  ∧ fs.canonical disk path = Some mario
  ∧ fs.canonical disk (getPath (root_entry [1; 2])) = Some nes
  ∧ ¬ (fs.root_path mario = fs.root_path nes ∧ nes `prefix_of` mario)
  ∧ load_file_node disk system GAME two_games mario_element
    = Some two_games.
Proof.
  intros path.
  assert (two_games !! 0 = Some (root_entry [1; 2])) as Hfd by computed.
  assert (fs.canonical disk path = Some mario) as Hp by computed.
  assert (fs.canonical disk (getPath (root_entry [1; 2])) = Some nes)
    as Hr by computed.
  assert (¬ (fs.root_path mario = fs.root_path nes ∧ nes `prefix_of` mario))
    as Hout by decided.
  exact (conj eq_refl (conj Hfd (conj Hp (conj Hr (conj Hout
    (load_file_node_outside disk system GAME two_games mario_element 0
       (root_entry [1; 2]) mario nes eq_refl Hfd Hp Hr Hout)))))).
Defined.

Lemma load_folders_keeps_structure_witness :
  load_file_nodes pi_disk system FOLDER with_bar [foo_folder]
  = Some with_bar_named
  ∧ (λ fd, (getType fd, getPath fd, getChildren fd, getParent fd))
      <$> with_bar_named !! 1
    = (λ fd, (getType fd, getPath fd, getChildren fd, getParent fd))
      <$> with_bar !! 1.
Proof.
  assert (load_file_nodes pi_disk system FOLDER with_bar [foo_folder]
          = Some with_bar_named) as Hl by computed.
  exact (conj Hl
    (load_folders_keeps_structure pi_disk system with_bar [foo_folder]
       with_bar_named 1 Hl)).
Defined.

Lemma parseGamelist_keeps_entries_witness :
  parseGamelist pi_disk system root_only (gamelist [bar_element])
  = Some with_bar_loaded
  ∧ root_only !! 0 = Some (root_entry [])
  ∧ ∃ fd', with_bar_loaded !! 0 = Some fd'
      ∧ getType fd' = getType (root_entry [])
      ∧ getPath fd' = getPath (root_entry [])
      ∧ getParent fd' = getParent (root_entry [])
      ∧ getChildren (root_entry []) `prefix_of` getChildren fd'.
Proof.
  assert (parseGamelist pi_disk system root_only (gamelist [bar_element])
          = Some with_bar_loaded) as Hp by computed.
  assert (root_only !! 0 = Some (root_entry [])) as Hl by computed.
  exact (conj Hp (conj Hl
    (parseGamelist_keeps_entries pi_disk system root_only
       (gamelist [bar_element]) with_bar_loaded 0 (root_entry []) Hp Hl))).
Defined.

Lemma parseGamelist_parent_linked_witness :
  parent_linked root_only
  ∧ parseGamelist pi_disk system root_only (gamelist [bar_element])
    = Some with_bar_loaded
  ∧ with_bar_loaded !! 0 = Some (root_entry [1])
  ∧ 1 ∈ getChildren (root_entry [1])
  ∧ ∃ cfd, with_bar_loaded !! 1 = Some cfd ∧ getParent cfd = Some 0.
Proof.
  assert (parent_linked root_only) as Hpl by decided.
  assert (parseGamelist pi_disk system root_only (gamelist [bar_element])
          = Some with_bar_loaded) as Hp by computed.
  assert (with_bar_loaded !! 0 = Some (root_entry [1])) as Hl by computed.
  assert (1 ∈ getChildren (root_entry [1])) as Hc by (by left).
  exact (conj Hpl (conj Hp (conj Hl (conj Hc
    (parseGamelist_parent_linked pi_disk system root_only
       (gamelist [bar_element]) with_bar_loaded 0 1 (root_entry [1])
       Hpl Hp Hl Hc))))).
Defined.

(** The folder element stands before the game element that makes the
    folder, and is loaded all the same; taken in the order of the document
    it would find no folder and be passed over. *)
Lemma parseGamelist_games_then_folders_witness :
  let root := XNode "gameList" EmptyString [foo_folder; note; bar_element] in
  child_of [note; root] "gameList" = Some root
  ∧ parseGamelist pi_disk system root_only (Document [note; root])
    = load_in_order pi_disk system root_only [bar_element; foo_folder]
  ∧ load_in_order pi_disk system root_only [bar_element; foo_folder]
    = Some with_both_loaded
  ∧ load_in_order pi_disk system root_only [foo_folder; bar_element]
    = Some with_bar_loaded.
Proof.
  intros root.
  assert (child_of [note; root] "gameList" = Some root) as Hroot
    by computed.
  pose proof (parseGamelist_games_then_folders pi_disk system root_only
                [note; root] root Hroot) as Hp.
  assert (children_named root "game" ++ children_named root "folder"
          = [bar_element; foo_folder]) as Hkids by computed.
  rewrite Hkids in Hp.
  split; [exact Hroot|]. split; [exact Hp|].
  split; computed.
Defined.

Lemma updateGamelist_top_level_witness :
  updateGamelist writes_enabled pi_disk true one_game system
    (Document [note; XNode "gameList" EmptyString [real_old]])
  = Some (Document [note; XNode "gameList" EmptyString [real_custom]])
  ∧ ∃ doc',
      Document [note; XNode "gameList" EmptyString [real_custom]]
      = Document doc'
      ∧ node_name <$> doc'
        = node_name <$> [note; XNode "gameList" EmptyString [real_old]]
      ∧ ∀ (i : nat) n,
          [note; XNode "gameList" EmptyString [real_old]] !! i = Some n →
          named "gameList" n = false → doc' !! i = Some n.
Proof.
  assert (updateGamelist writes_enabled pi_disk true one_game system
            (Document [note; XNode "gameList" EmptyString [real_old]])
          = Some (Document [note; XNode "gameList" EmptyString [real_custom]]))
    as Hu by computed.
  exact (conj Hu
    (updateGamelist_top_level pi_disk writes_enabled true one_game system
       _ _ Hu)).
Defined.

Lemma update_files_writes_entry_witness :
  reparses a_entry
  ∧ a_element ∈ element_of a_entry
  ∧ Forall (λ g, alias disk a_entry g = false) [b_entry]
  ∧ a_element ∈ update_files disk ([] ++ a_entry :: [b_entry]) [b_old; a_old].
Proof.
  assert (reparses a_entry) as Hre by decided.
  assert (a_element ∈ element_of a_entry) as Hn.
  { assert (element_of a_entry = [a_element]) as -> by computed. by left. }
  assert (Forall (λ g, alias disk a_entry g = false) [b_entry]) as Hafter
    by decided.
  exact (conj Hre (conj Hn (conj Hafter
    (update_files_writes_entry disk [] a_entry [b_entry] [b_old; a_old]
       a_element Hre Hn Hafter)))).
Defined.

Lemma update_files_at_most_one_witness :
  Forall reparses [a_entry; b_entry]
  ∧ Forall (at_most_one disk [b_old; a_old]) [a_entry; b_entry]
  ∧ Forall (at_most_one disk
              (update_files disk [a_entry; b_entry] [b_old; a_old]))
           [a_entry; b_entry].
Proof.
  assert (Forall reparses [a_entry; b_entry]) as Hre by decided.
  assert (Forall (at_most_one disk [b_old; a_old]) [a_entry; b_entry])
    as Hone by decided.
  exact (conj Hre (conj Hone
    (update_files_at_most_one disk [a_entry; b_entry] [b_old; a_old]
       Hre Hone))).
Defined.

Lemma remove_existing_addFileDataNode_witness :
  reparses a_entry
  ∧ Forall (λ n, entry_of disk a_entry n = false) [b_old]
  ∧ remove_existing disk (tag_of (getType a_entry)) (getPath a_entry)
      (addFileDataNode [b_old] a_entry (tag_of (getType a_entry)))
    = [b_old].
Proof.
  assert (reparses a_entry) as Hre by decided.
  assert (Forall (λ n, entry_of disk a_entry n = false) [b_old]) as Hroot
    by (repeat constructor).
  exact (conj Hre (conj Hroot
    (remove_existing_addFileDataNode disk a_entry [b_old] Hre Hroot))).
Defined.

Lemma update_file_replaces_witness :
  at_most_one disk [b_old; a_old] b_entry
  ∧ update_file disk [b_old; a_old] b_entry
    = List.filter (λ n, negb (entry_of disk b_entry n)) [b_old; a_old]
      ++ element_of b_entry.
Proof.
  assert (at_most_one disk [b_old; a_old] b_entry) as Hone by decided.
  exact (conj Hone (update_file_replaces disk [b_old; a_old] b_entry Hone)).
Defined.

(** The tree with a game of its own name and a default-only game, and no
    gamelist file: the file written holds the element of the first game
    and nothing for the second. *)
Lemma updateGamelist_new_file_witness :
  DisableGamelistWrites writes_enabled || IGNOREGAMELIST writes_enabled
  = false
  ∧ closed two_games
  ∧ getRootFolder system = Some 0
  ∧ is_Some (two_games !! 0)
  ∧ Forall reparses (tree_files two_games system)
  ∧ no_alias disk (tree_files two_games system) = true
  ∧ flat_map element_of (tree_files two_games system) = [a_element]
  ∧ updateGamelist writes_enabled disk true two_games system NoFile
    = Some (Document [XNode "gameList" EmptyString
                        (flat_map element_of (tree_files two_games system))]).
Proof.
  assert (closed two_games) as Hcl by decided.
  assert (is_Some (two_games !! 0)) as Hroot by decided.
  assert (Forall reparses (tree_files two_games system)) as Hre by decided.
  assert (no_alias disk (tree_files two_games system) = true) as Hna
    by computed.
  assert (flat_map element_of (tree_files two_games system) = [a_element])
    as Hel by computed.
  exact (conj eq_refl (conj Hcl (conj eq_refl (conj Hroot (conj Hre
    (conj Hna (conj Hel
      (updateGamelist_new_file disk writes_enabled two_games system 0
         eq_refl Hcl eq_refl Hroot Hre Hna)))))))).
Defined.

Lemma findOrCreateFile_folder_found_witness :
  relative_path pi_disk with_bar system foo = Some (["foo"], true)
  ∧ findOrCreateFile pi_disk with_bar system foo FOLDER
    = Some (with_bar, Some 1)
  ∧ with_bar = with_bar
  ∧ ∃ root : nat, getRootFolder system = Some root
                  ∧ resolves with_bar root ["foo"] 1.
Proof.
  assert (relative_path pi_disk with_bar system foo = Some (["foo"], true))
    as Hrel by computed.
  assert (findOrCreateFile pi_disk with_bar system foo FOLDER
          = Some (with_bar, Some 1)) as Hf by computed.
  exact (conj Hrel (conj Hf
    (findOrCreateFile_folder_found pi_disk with_bar system foo ["foo"]
       with_bar 1 Hrel Hf))).
Defined.

Lemma parseGamelist_all_stale_witness :
  Forall (λ n, fs.exists_ pi_disk
                 (fs.path_of_string (text_get (child n "path"))) = false)
         (gamelist_children (gamelist [gone_element]))
  ∧ parseGamelist pi_disk system root_only (gamelist [gone_element])
    = Some root_only.
Proof.
  assert (Forall (λ n, fs.exists_ pi_disk
                         (fs.path_of_string (text_get (child n "path")))
                       = false)
                 (gamelist_children (gamelist [gone_element]))) as Hstale
    by decided.
  exact (conj Hstale
    (parseGamelist_all_stale pi_disk system root_only
       (gamelist [gone_element]) Hstale)).
Defined.

Lemma updateGamelist_changes_only_when_witness :
  updateGamelist writes_enabled pi_disk true one_game system
    (gamelist [gone_element; real_old])
  = Some (gamelist [gone_element; real_custom])
  ∧ gamelist [gone_element; real_custom] ≠ gamelist [gone_element; real_old]
  ∧ DisableGamelistWrites writes_enabled = false
  ∧ IGNOREGAMELIST writes_enabled = false
  ∧ true = true
  ∧ gamelist [gone_element; real_old] ≠ Malformed
  ∧ is_Some (getRootFolder system)
  ∧ ∃ doc', gamelist [gone_element; real_custom] = Document doc'.
Proof.
  assert (updateGamelist writes_enabled pi_disk true one_game system
            (gamelist [gone_element; real_old])
          = Some (gamelist [gone_element; real_custom])) as Hu by computed.
  assert (gamelist [gone_element; real_custom]
          ≠ gamelist [gone_element; real_old]) as Hne.
  { intros E. vm_compute in E. congruence. }
  exact (conj Hu (conj Hne
    (updateGamelist_changes_only_when pi_disk writes_enabled true one_game
       system _ _ Hu Hne))).
Defined.

Lemma findOrCreateFile_idempotent_witness :
  closed root_only
  ∧ relative_path pi_disk root_only system bar_nes
    = Some (["foo"; "bar.nes"], true)
  ∧ ["foo"; "bar.nes"] ≠ []
  ∧ fs.filename bar_nes = fs.filename ["foo"; "bar.nes"]
  ∧ idempotent_at pi_disk root_only system bar_nes GAME.
Proof.
  assert (closed root_only) as Hcl by decided.
  assert (relative_path pi_disk root_only system bar_nes
          = Some (["foo"; "bar.nes"], true)) as Hrel by computed.
  assert (["foo"; "bar.nes"] ≠ @nil string) as Hne by done.
  assert (fs.filename bar_nes = fs.filename ["foo"; "bar.nes"]) as Hname
    by computed.
  exact (conj Hcl (conj Hrel (conj Hne (conj Hname
    (findOrCreateFile_idempotent pi_disk root_only system bar_nes
       ["foo"; "bar.nes"] Hcl Hrel Hne Hname))))).
Defined.

End more_samples.
